(** * Flowchart: the graph construction pipeline of the dependency flowchart

    A shallow embedding of the [Flowchart] component (first revision of the
    source file, the one with search and filter chips): the helpers [ci] and
    [list], the CSV row normalisation, the [buildGraph] memo (done set,
    actionable set, filter predicates, visible rows, edges, nodes), the
    checkbox handler that rewrites a row's status, the effect that defaults
    the selected sections, the section and tag chips, the filter badge and
    reset, the persisted status map, and the [buildGraph] filter of the
    revision with a single stage selector.

    Strings are [string]s over 8-bit characters.  [trim] strips the ASCII
    white space and line terminators.  [toLowerCase] is left open: the
    component is modelled over any lower-casing function that keeps the
    empty string, and every general theorem holds for all of them; the
    lower-casing of [A-Z] is the instance sample rows are evaluated with.
    JavaScript [Set]s of ids are [gset string]; arrays are lists. *)

From Stdlib Require Import String Ascii List Bool Arith Lia.
From stdpp Require Import base decidable option list gmap strings sets sorting.

Local Open Scope string_scope.

(** ** JavaScript string built-ins used by the component *)

Module Js.

(** [s || dflt] for an optional string: [undefined] and [""] are falsy. *)
Definition or_else (s : option string) (dflt : string) : string :=
  match s with
  | None => dflt
  | Some "" => dflt
  | Some t => t
  end.

(** Truthiness of an optional string. *)
Definition truthy (s : option string) : bool :=
  match s with
  | None => false
  | Some "" => false
  | Some _ => true
  end.

Fixpoint trimStart (s : string) : string :=
  match s with
  | "" => ""
  | String c s' => if Ascii.is_space c then trimStart s' else s
  end.

Fixpoint trimEnd (s : string) : string :=
  match s with
  | "" => ""
  | String c s' =>
      match trimEnd s' with
      | "" => if Ascii.is_space c then "" else String c ""
      | t => String c t
      end
  end.

Definition trim (s : string) : string := trimEnd (trimStart s).

Definition lower_char (c : ascii) : ascii :=
  let n := nat_of_ascii c in
  if (65 <=? n)%nat && (n <=? 90)%nat then ascii_of_nat (n + 32) else c.

(** [s.toLowerCase()]: a function on strings that keeps the empty string.
    Nothing else is assumed of it; in particular it need not work character
    by character. *)
Class Lowering : Type := {
  toLowerCase : string → string;
  toLowerCase_empty : toLowerCase "" = ""
}.

(** Lower-casing of the letters [A-Z]. *)
Fixpoint lowerAscii (s : string) : string :=
  match s with
  | "" => ""
  | String c s' => String (lower_char c) (lowerAscii s')
  end.

#[global] Instance asciiLowering : Lowering | 10 :=
  {| toLowerCase := lowerAscii; toLowerCase_empty := eq_refl |}.

(** [s.split(sep)] for a one-character separator: never empty, and
    [split sep ""] is [[""]]. *)
Fixpoint split (sep : ascii) (s : string) : list string :=
  match s with
  | "" => [""]
  | String c s' =>
      if Ascii.eqb c sep then "" :: split sep s'
      else match split sep s' with
           | [] => [String c ""]
           | t :: ts => String c t :: ts
           end
  end.

(** [xs.join(sep)]. *)
Fixpoint join (sep : string) (xs : list string) : string :=
  match xs with
  | [] => ""
  | [x] => x
  | x :: rest => x +:+ sep +:+ join sep rest
  end.

(** [hay.includes(q)]: [q] occurs at some position of [hay]. *)
Fixpoint includes (hay q : string) : bool :=
  String.prefix q hay ||
  match hay with
  | "" => false
  | String _ hay' => includes hay' q
  end.

End Js.

(** ** The component *)

Module Flowchart.

(** [type Row].  Cells come out of the CSV parser as strings, so
    [priority] is kept as an optional string. *)
Record Row : Type := mkRow {
  id : string;
  title : string;
  section : option string;
  stage : option string;
  description : option string;
  priority : option string;
  depends_on : option string;
  status : option string;
  tags : option string
}.

Global Instance Row_eq_dec : EqDecision Row.
Proof. solve_decision. Defined.

Definition STAGE_ORDER : list string := ["Setup"; "Start"; "Early"; "Late"].

Module Util.
(** [const ci = (s?: string) => (s || "").toLowerCase()]. *)
Definition ci `{Js.Lowering} (s : option string) : string :=
  Js.toLowerCase (Js.or_else s "").

(** [const list = (s?: string) =>
      (s || "").split("|").map(t => t.trim()).filter(Boolean)]. *)
Definition list (s : option string) : list string :=
  filter (λ t, t ≠ "") (Js.trim <$> Js.split "|" (Js.or_else s "")).
End Util.

(** [r.status === "done"] and its negation [r.status !== "done"]. *)
Definition isDone (r : Row) : bool := bool_decide (status r = Some "done").

Definition depsOf (r : Row) : list string := Util.list (depends_on r).

(** [new Set(rawRows.filter(r => r.status === "done").map(r => r.id))]. *)
Definition completed (rawRows : list Row) : gset string :=
  list_to_set (id <$> filter (λ r, isDone r) rawRows).

(** The callback of the filter that builds [actionable]:
    [r => (r.status !== "done") && depsOf(r).every(d => completed.has(d))]. *)
Definition isActionable (done : gset string) (r : Row) : bool :=
  negb (isDone r) && forallb (λ d, bool_decide (d ∈ done)) (depsOf r).

Definition actionable (rawRows : list Row) : gset string :=
  list_to_set (id <$> filter (λ r, isActionable (completed rawRows) r) rawRows).

(** *** Filter state *)

Inductive StatusFilter : Type := all | todo | done.

Record FilterState : Type := mkFilterState {
  query : string;
  statusFilter : StatusFilter;
  selectedStages : list string;
  selectedSections : list string;
  selectedTags : list string;
  onlyNextActionable : bool
}.

Section BuildGraph.
Context `{L : Js.Lowering}.
Variable st : FilterState.

Definition q : string := Util.ci (Some (query st)).

Definition okStatus (r : Row) : bool :=
  match statusFilter st with
  | all => true
  | todo => negb (isDone r)
  | done => isDone r
  end.

Definition okStage (r : Row) : bool :=
  bool_decide (Js.or_else (stage r) "" ∈ selectedStages st).

Definition okSection (r : Row) : bool :=
  bool_decide (Js.or_else (section r) "General" ∈ selectedSections st).

Definition okTags (r : Row) : bool :=
  match selectedTags st with
  | [] => true
  | _ => existsb (λ t, bool_decide (t ∈ selectedTags st)) (Util.list (tags r))
  end.

(** [[r.title, r.description, r.section, r.stage, r.tags].map(ci).join(" ")]. *)
Definition hay (r : Row) : string :=
  Js.join " "
    (Util.ci <$> [Some (title r); description r; section r; stage r; tags r]).

Definition okSearch (r : Row) : bool :=
  match q with
  | "" => true
  | _ => Js.includes (hay r) q
  end.

(** The conjunction applied by the first [rawRows.filter]. *)
Definition okAll (r : Row) : bool :=
  okStatus r && okStage r && okSection r && okTags r && okSearch r.

(** [visibleRows] at the point where edges and nodes are built. *)
Definition visibleRows (rawRows : list Row) : list Row :=
  let actionable := actionable rawRows in
  let visibleRows := filter (λ r, okAll r) rawRows in
  if onlyNextActionable st
  then filter (λ r, id r ∈ actionable) visibleRows
  else visibleRows.
End BuildGraph.

(** *** Edges *)

Module Edge.
Record t : Type := mk { id : string; source : string; target : string }.
End Edge.

Global Instance Edge_eq_dec : EqDecision Edge.t.
Proof. solve_decision. Defined.

(** [{ id: `${dep}->${r.id}`, source: dep, target: r.id }]. *)
Definition mkEdge (dep : string) (r : Row) : Edge.t :=
  Edge.mk (dep +:+ "->" +:+ id r) dep (id r).

(** The callback of [visibleRows.flatMap]: the edges one row contributes. *)
Definition edgesOf (visibleIds : gset string) (r : Row) : list Edge.t :=
  (λ dep, mkEdge dep r) <$> filter (λ dep, dep ∈ visibleIds) (depsOf r).

Definition visibleIds `{Js.Lowering} (st : FilterState) (rawRows : list Row)
  : gset string :=
  list_to_set (id <$> visibleRows st rawRows).

Definition edgesBuilt `{Js.Lowering} (st : FilterState) (rawRows : list Row)
  : list Edge.t :=
  visibleRows st rawRows ≫= edgesOf (visibleIds st rawRows).

(** *** Nodes

    A node carries the row id, the zeroed position, the values the label
    renders and the class name.  The checkbox handler inside the label is
    the transition [onChange] below. *)

Definition NODE_W : Z := 320.

Module Node.
Record label : Type := mkLabel {
  checked : bool;              (* background, line-through, checkbox *)
  title : string;
  section : string;            (* r.section || "General" *)
  stage : option string;
  description : option string; (* rendered when truthy *)
  priority : option string     (* rendered when truthy *)
}.
Record t : Type := mk {
  id : string;
  position : Z * Z;
  data : label;
  width : Z;
  draggable : bool;
  selectable : bool;
  className : string
}.
End Node.

Definition whenTruthy (s : option string) : option string :=
  if Js.truthy s then s else None.

Definition mkNode `{Js.Lowering} (r : Row) : Node.t :=
  Node.mk (id r) (0, 0)%Z
    (Node.mkLabel (isDone r) (title r) (Js.or_else (section r) "General")
       (stage r) (whenTruthy (description r)) (whenTruthy (priority r)))
    NODE_W true true
    ("stage-" +:+ Js.toLowerCase (Js.or_else (stage r) "")).

Definition nodesBuilt `{Js.Lowering} (st : FilterState) (rawRows : list Row)
  : list Node.t :=
  mkNode <$> visibleRows st rawRows.

(** *** Row mutation: the checkbox handler *)

Definition withStatus (rr : Row) (s : string) : Row :=
  mkRow (id rr) (title rr) (section rr) (stage rr) (description rr)
    (priority rr) (depends_on rr) (Some s) (tags rr).

(** [rawRows.map(rr => rr.id === r.id
      ? { ...rr, status: e.target.checked ? "done" : "todo" } : rr)],
    the array handed to [setRawRows]. *)
Definition onChange (rawRows : list Row) (r : Row) (checked : bool) : list Row :=
  (λ rr, if bool_decide (id rr = id r)
         then withStatus rr (if checked then "done" else "todo")
         else rr) <$> rawRows.

(** Clicking the checkbox of [r]'s node: the box shows
    [r.status === "done"] and the click reports the flipped value. *)
Definition click (rawRows : list Row) (r : Row) : list Row :=
  onChange rawRows r (negb (isDone r)).

(** *** CSV load *)

(** The per-row normalisation in the parser's [complete] callback. *)
Definition normalise (r : Row) : Row :=
  mkRow (Js.trim (Js.or_else (Some (id r)) ""))
    (Js.trim (Js.or_else (Some (title r)) ""))
    (section r)
    (Some (Js.trim (Js.or_else (stage r) "Unsorted")))
    (description r) (priority r) (depends_on r)
    (Some (Js.trim (Js.or_else (status r) "todo")))
    (tags r).

(** [saved[r.id] ? { ...r, status: saved[r.id] } : r] for the persisted
    id-to-status object, [saved] being the map of its own properties: the
    ids looked up are taken to be own properties of the object or to differ
    from the member names of [Object.prototype]. *)
Definition mergeSaved (saved : gmap string string) (r : Row) : Row :=
  match saved !! id r with
  | Some s => if Js.truthy (Some s) then withStatus r s else r
  | None => r
  end.

Definition loadRows (saved : gmap string string) (data : list Row) : list Row :=
  mergeSaved saved <$> (normalise <$> data).

(** *** Selected sections: component state, handlers and the defaulting effect *)

(** [Array.from(new Set(rawRows.map(r => r.section || "General"))).sort()].
    The array is duplicate-free, so the sorted result does not depend on the
    order in which the set lists it. *)
Definition allSections (rawRows : list Row) : list string :=
  merge_sort String.le
    (remove_dups ((λ r, Js.or_else (section r) "General") <$> rawRows)).

(** [toggle(arr, value, onChange)]: the array handed to [onChange]. *)
Definition toggle (arr : list string) (value : string) : list string :=
  if bool_decide (value ∈ arr) then filter (λ x, x ≠ value) arr else arr ++ [value].

(** The state the defaulting effect reads.  [rowsRef] stands for the identity
    of the [rawRows] array (every [setRawRows] installs a fresh array, and the
    [allSections] memo is keyed on it); [lastDeps] holds the dependency array
    [[rawRows, allSections, selectedSections.length]] the effect last ran
    with, [None] before the first render. *)
Record State : Type := mkState {
  rawRows : list Row;
  rowsRef : nat;
  filters : FilterState;
  lastDeps : option (nat * nat)
}.

Definition initialFilters : FilterState :=
  mkFilterState "" all STAGE_ORDER [] [] false.

Definition initialState : State := mkState [] 0 initialFilters None.

Definition setRawRows (rows : list Row) (c : State) : State :=
  mkState rows (S (rowsRef c)) (filters c) (lastDeps c).

Definition setSelectedSections (secs : list string) (c : State) : State :=
  let f := filters c in
  mkState (rawRows c) (rowsRef c)
    (mkFilterState (query f) (statusFilter f) (selectedStages f) secs
       (selectedTags f) (onlyNextActionable f))
    (lastDeps c).

Inductive Event : Type :=
| Loaded (saved : gmap string string) (data : list Row)
| Checkbox (r : Row)
| SectionsAll
| SectionsNone
| SectionChip (sec : string).

Definition handle (ev : Event) (c : State) : State :=
  match ev with
  | Loaded saved data => setRawRows (loadRows saved data) c
  | Checkbox r => setRawRows (click (rawRows c) r) c
  | SectionsAll => setSelectedSections (allSections (rawRows c)) c
  | SectionsNone => setSelectedSections [] c
  | SectionChip sec =>
      setSelectedSections (toggle (selectedSections (filters c)) sec) c
  end.

Definition effectDeps (c : State) : nat * nat :=
  (rowsRef c, length (selectedSections (filters c))).

(** Body of the effect:
    [if (rawRows.length && selectedSections.length === 0)
       setSelectedSections(allSections)]. *)
Definition defaultSections (c : State) : State :=
  if negb (length (rawRows c) =? 0)%nat
     && (length (selectedSections (filters c)) =? 0)%nat
  then setSelectedSections (allSections (rawRows c)) c
  else c.

(** Renders after a state change: the effect runs when its dependency array
    differs from the one of its last run, and a state change made by the
    effect causes another render. *)
Fixpoint commit (fuel : nat) (c : State) : State :=
  match fuel with
  | 0 => c
  | S fuel' =>
      if decide (lastDeps c = Some (effectDeps c)) then c
      else commit fuel'
             (defaultSections
                (mkState (rawRows c) (rowsRef c) (filters c) (Some (effectDeps c))))
  end.

Definition dispatch (c : State) (ev : Event) : State := commit 3 (handle ev c).

Definition run (evs : list Event) : State :=
  foldl dispatch (commit 3 initialState) evs.

(** *** Tag chips, filter badge and reset *)

(** [const tags = new Set(); rawRows.forEach(r => list(r.tags).forEach(t =>
    tags.add(t))); Array.from(tags).sort()]. *)
Definition allTags (rawRows : list Row) : list string :=
  merge_sort String.le (remove_dups (rawRows ≫= (λ r, Util.list (tags r)))).

(** [activeFilterCount]: one for every filter that is off its default. *)
Definition activeFilterCount (st : FilterState) (rawRows : list Row) : nat :=
  let n := 0 in
  let n := if Js.truthy (Some (Js.trim (query st))) then S n else n in
  let n := if statusFilter st is all then n else S n in
  let n := if onlyNextActionable st then S n else n in
  let n := if bool_decide (length (selectedStages st) ≠ length STAGE_ORDER)
           then S n else n in
  let n := if negb (length (selectedSections st) =? 0)%nat
              && bool_decide (length (selectedSections st)
                              ≠ length (allSections rawRows))
           then S n else n in
  let n := if negb (length (selectedTags st) =? 0)%nat then S n else n in
  n.

(** The filter state [resetFilters] installs. *)
Definition resetFilters (rawRows : list Row) : FilterState :=
  mkFilterState "" all STAGE_ORDER (allSections rawRows) [] false.

(** *** Persisted statuses *)

(** The object the persist effect writes:
    [rawRows.forEach(r => { map[r.id] = r.status || "todo"; })] on [{}],
    as the map of its own properties, which is what [JSON.stringify] stores
    and [JSON.parse] gives back.  Assigning a string to ["__proto__"] goes to
    the prototype setter, which ignores it: no own property is created. *)
Definition statusMap (rawRows : list Row) : gmap string string :=
  foldl (λ map r, if bool_decide (id r = "__proto__") then map
                  else <[id r := Js.or_else (status r) "todo"]> map)
    ∅ rawRows.

(** *** The revision with a single stage selector

    Its [buildGraph] keeps a row when the selector shows "All" or the row's
    stage, and, with the actionable-only flag, when the row is actionable. *)

Module Rev3.
Definition visibleRows (filterStage : string) (onlyNextActionable : bool)
    (rawRows : list Row) : list Row :=
  filter (λ r, (bool_decide (filterStage = "All")
                || bool_decide (stage r = Some filterStage))
               && (negb onlyNextActionable
                   || bool_decide (id r ∈ actionable rawRows)))
    rawRows.
End Rev3.

(** *** Sample rows *)

Definition sampleRow (i deps stat : string) : Row :=
  mkRow i i None (Some "Setup") None None (Some deps) (Some stat) None.

Definition sampleIn (sec i : string) : Row :=
  mkRow i i (Some sec) (Some "Setup") None None None (Some "todo") None.

Definition defaultFilters (rows : list Row) : FilterState :=
  mkFilterState "" all STAGE_ORDER (allSections rows) [] false.

Definition actionableOnly (rows : list Row) : FilterState :=
  mkFilterState "" all STAGE_ORDER (allSections rows) [] true.

End Flowchart.

(** ** The search predicate as the specification words it *)

Module Spec.
Import Flowchart.

(** [q] occurs somewhere inside [hay]. *)
Definition isSubstring (q hay : string) : Prop :=
  ∃ pre post, hay = pre +:+ q +:+ post.

(** Title, description, section, stage and tags, each lower-cased, joined by
    single spaces; an absent cell counts as empty text. *)
Definition searchText `{Js.Lowering} (r : Row) : string :=
  Js.toLowerCase (title r) +:+ " " +:+
  Js.toLowerCase (Js.or_else (description r) "") +:+ " " +:+
  Js.toLowerCase (Js.or_else (section r) "") +:+ " " +:+
  Js.toLowerCase (Js.or_else (stage r) "") +:+ " " +:+
  Js.toLowerCase (Js.or_else (tags r) "").

(** The five cells joined by single spaces, as they are. *)
Definition joinedText (r : Row) : string :=
  title r +:+ " " +:+ Js.or_else (description r) "" +:+ " " +:+
  Js.or_else (section r) "" +:+ " " +:+ Js.or_else (stage r) "" +:+ " " +:+
  Js.or_else (tags r) "".

(** The five cells the search looks at. *)
Definition cells (r : Row) : list (option string) :=
  [Some (title r); description r; section r; stage r; tags r].

(** The filter state with another status selector, or other selected tags. *)
Definition withStatusFilter (st : FilterState) (sf : StatusFilter)
  : FilterState :=
  mkFilterState (query st) sf (selectedStages st) (selectedSections st)
    (selectedTags st) (onlyNextActionable st).

Definition withSelectedTags (st : FilterState) (tgs : list string)
  : FilterState :=
  mkFilterState (query st) (statusFilter st) (selectedStages st)
    (selectedSections st) tgs (onlyNextActionable st).

(** Two rows that differ at most in [status]. *)
Definition agreeOffStatus (r r' : Row) : Prop :=
  withStatus r "" = withStatus r' "".

(** The status a row is persisted with, written back into the row. *)
Definition persistedStatus (r : Row) : Row :=
  withStatus r (Js.or_else (status r) "todo").

(** The effect has run with the dependency array of the current render. *)
Definition settled (c : State) : Prop := lastDeps c = Some (effectDeps c).

(** Once rows are loaded, some section is selected. *)
Definition someSectionSelected (c : State) : Prop :=
  rawRows c ≠ [] → selectedSections (filters c) ≠ [].

(** [s] does not start with white space. *)
Definition headNonSpace (s : string) : Prop :=
  match s with
  | "" => True
  | String c _ => Ascii.is_space c = false
  end.

(** The character [c] occurs in [s]. *)
Definition hasChar (c : ascii) (s : string) : Prop :=
  c ∈ list_ascii_of_string s.

(** How many times [x] occurs in [l]. *)
Definition occurrences {A} `{EqDecision A} (x : A) (l : list A) : nat :=
  length (filter (λ y, y = x) l).

(** Two rows that filter and render alike: they agree on every field but
    [status], and on whether the status is "done". *)
Definition sameView (r r' : Row) : Prop :=
  id r' = id r ∧ title r' = title r ∧ section r' = section r ∧
  stage r' = stage r ∧ description r' = description r ∧
  priority r' = priority r ∧ depends_on r' = depends_on r ∧
  tags r' = tags r ∧ isDone r' = isDone r.

(** The row with id [i] gets the status word of its own completion flag. *)
Definition restatus (i : string) (rr : Row) : Row :=
  if bool_decide (id rr = i)
  then withStatus rr (if isDone rr then "done" else "todo")
  else rr.

End Spec.

(** ** Facts about the string built-ins *)

Module JsFacts.

Lemma append_cons c s t : String c s +:+ t = String c (s +:+ t).
Proof. reflexivity. Qed.

Lemma append_nil_l s : "" +:+ s = s.
Proof. reflexivity. Qed.

Lemma prefix_nil s : String.prefix "" s = true.
Proof. by destruct s. Qed.

Lemma prefix_iff q hay :
  String.prefix q hay = true ↔ ∃ post, hay = q +:+ post.
Proof.
  revert hay. induction q as [|c q IH]; intros hay.
  - rewrite prefix_nil. split; [|done]. intros _. by exists hay.
  - destruct hay as [|d hay]; simpl.
    + split; [done|]. intros [post Hpost]. by rewrite append_cons in Hpost.
    + destruct (ascii_dec c d) as [->|Hne].
      * rewrite IH. split; intros [post Hpost]; exists post.
        -- by rewrite append_cons, Hpost.
        -- rewrite append_cons in Hpost. congruence.
      * split; [done|]. intros [post Hpost].
        rewrite append_cons in Hpost. congruence.
Qed.

Lemma includes_empty q : Js.includes "" q = String.prefix q "" || false.
Proof. reflexivity. Qed.

Lemma includes_cons c hay q :
  Js.includes (String c hay) q
  = String.prefix q (String c hay) || Js.includes hay q.
Proof. reflexivity. Qed.

Lemma includes_iff hay q :
  Js.includes hay q = true ↔ ∃ pre post, hay = pre +:+ q +:+ post.
Proof.
  induction hay as [|c hay IH].
  - rewrite includes_empty, orb_false_r, prefix_iff. split.
    + intros [post ->]. by exists "", post.
    + intros [[|d pre] [post Hpost]]; [by exists post|].
      by rewrite append_cons in Hpost.
  - rewrite includes_cons, orb_true_iff, prefix_iff, IH. split.
    + intros [[post Hpost]|(pre & post & ->)].
      * by exists "", post.
      * by exists (String c pre), post.
    + intros [[|d pre] [post Hpost]].
      * left. by exists post.
      * right. rewrite append_cons in Hpost. exists pre, post. congruence.
Qed.

Lemma includes_nil hay : Js.includes hay "" = true.
Proof. apply includes_iff. by exists "", hay. Qed.

Lemma lowerAscii_app s t :
  Js.lowerAscii (s +:+ t) = Js.lowerAscii s +:+ Js.lowerAscii t.
Proof.
  induction s as [|c s IH]; [done|].
  rewrite append_cons. simpl. by rewrite IH.
Qed.

Lemma or_else_empty s : Js.or_else (Some s) "" = s.
Proof. by destruct s. Qed.

Lemma or_else_None_iff s d :
  Js.truthy s = false → Js.or_else s d = d.
Proof. by destruct s as [[|??]|]. Qed.

Lemma length_append s t :
  String.length (s +:+ t) = String.length s + String.length t.
Proof.
  induction s as [|c s IH]; [done|]. rewrite append_cons. simpl. by rewrite IH.
Qed.

Lemma append_inj_r s1 s2 t : s1 +:+ t = s2 +:+ t → s1 = s2.
Proof.
  revert s2. induction s1 as [|c s1 IH]; intros [|d s2] Heq; [done| | |].
  - apply (f_equal String.length) in Heq.
    rewrite append_nil_l, append_cons in Heq. simpl in Heq.
    rewrite length_append in Heq. lia.
  - apply (f_equal String.length) in Heq.
    rewrite append_nil_l, append_cons in Heq. simpl in Heq.
    rewrite length_append in Heq. lia.
  - rewrite !append_cons in Heq. injection Heq as -> Heq.
    by rewrite (IH s2 Heq).
Qed.

End JsFacts.

(** ** Properties of the pipeline *)

Module FlowchartProofs.
Import Flowchart.

(** Closes a decidable goal about concrete rows by evaluation. *)
Ltac by_eval := apply (bool_decide_unpack _); vm_compute; exact I.

Section Generic.
Context `{L : Js.Lowering}.

(** *** Lists of rows with pairwise distinct ids *)

Lemma NoDup_fmap_eq {A B} (f : A → B) (l : list A) x y :
  NoDup (f <$> l) → x ∈ l → y ∈ l → f x = f y → x = y.
Proof.
  induction l as [|a l IH]; intros Hnd Hx Hy Hf; [by apply elem_of_nil in Hx|].
  rewrite fmap_cons in Hnd. apply NoDup_cons in Hnd as [Hnotin Hnd].
  apply elem_of_cons in Hx as [->|Hx]; apply elem_of_cons in Hy as [->|Hy];
    [done| | |by apply IH].
  - exfalso. apply Hnotin. rewrite Hf. by apply list_elem_of_fmap_2.
  - exfalso. apply Hnotin. rewrite <- Hf. by apply list_elem_of_fmap_2.
Qed.

(** *** The done set and the actionable set *)

Lemma isDone_iff r : isDone r = true ↔ status r = Some "done".
Proof. unfold isDone. apply bool_decide_eq_true. Qed.

Lemma isDone_false_iff r : isDone r = false ↔ status r ≠ Some "done".
Proof. unfold isDone. apply bool_decide_eq_false. Qed.

Lemma elem_of_completed rawRows i :
  i ∈ completed rawRows ↔
  ∃ r, r ∈ rawRows ∧ id r = i ∧ status r = Some "done".
Proof.
  unfold completed. rewrite elem_of_list_to_set, list_elem_of_fmap. split.
  - intros (r & -> & Hr). apply list_elem_of_filter in Hr as [Hd Hr].
    exists r. split_and!; [done..|]. by apply isDone_iff, Is_true_true.
  - intros (r & Hr & <- & Hd). exists r. split; [done|].
    apply list_elem_of_filter. split; [|done]. by apply Is_true_true, isDone_iff.
Qed.

Lemma isActionable_iff (D : gset string) r :
  isActionable D r = true ↔
  status r ≠ Some "done" ∧ ∀ d, d ∈ depsOf r → d ∈ D.
Proof.
  unfold isActionable.
  rewrite andb_true_iff, negb_true_iff, isDone_false_iff, forallb_forall.
  split; intros [Hs Hd]; (split; [done|]); intros d Hin.
  - apply list_elem_of_In, Hd in Hin. by apply bool_decide_eq_true in Hin.
  - apply bool_decide_eq_true, Hd. by apply list_elem_of_In.
Qed.

Lemma elem_of_actionable rawRows i :
  i ∈ actionable rawRows ↔
  ∃ r, r ∈ rawRows ∧ id r = i ∧ isActionable (completed rawRows) r = true.
Proof.
  unfold actionable. rewrite elem_of_list_to_set, list_elem_of_fmap. split.
  - intros (r & -> & Hr). apply list_elem_of_filter in Hr as [Ha Hr].
    exists r. split_and!; [done..|]. by apply Is_true_true.
  - intros (r & Hr & <- & Ha). exists r. split; [done|].
    apply list_elem_of_filter. split; [|done]. by apply Is_true_true.
Qed.

Lemma missing_dep_not_completed rawRows d :
  d ∉ id <$> rawRows → d ∉ completed rawRows.
Proof.
  intros Hmiss (r & Hr & <- & _)%elem_of_completed.
  apply Hmiss. by apply list_elem_of_fmap_2.
Qed.

Lemma actionable_row rawRows r :
  NoDup (id <$> rawRows) → r ∈ rawRows →
  id r ∈ actionable rawRows ↔ isActionable (completed rawRows) r = true.
Proof.
  intros Hnd Hr. rewrite elem_of_actionable. split.
  - intros (r' & Hr' & Hid & Ha).
    by rewrite <- (NoDup_fmap_eq id rawRows r' r Hnd Hr' Hr Hid).
  - intros Ha. by exists r.
Qed.

(** C1.  The actionable set holds exactly the ids of the rows that are not
    done and whose every dependency id is in the done set; the done set holds
    exactly the ids of the rows whose status is "done".  A row that lists a
    dependency id occurring nowhere in the row set never passes the test.
    When ids are pairwise distinct, membership of a row's id is the test on
    that very row: a row without dependencies is actionable iff it is not
    done, and a row with a missing dependency is not actionable. *)
Theorem actionable_exact (rawRows : list Row) :
  (∀ i, i ∈ completed rawRows ↔
        ∃ r, r ∈ rawRows ∧ id r = i ∧ status r = Some "done") ∧
  (∀ i, i ∈ actionable rawRows ↔
        ∃ r, r ∈ rawRows ∧ id r = i ∧ status r ≠ Some "done" ∧
             ∀ d, d ∈ depsOf r → d ∈ completed rawRows) ∧
  (∀ r d, d ∈ depsOf r → d ∉ id <$> rawRows →
          isActionable (completed rawRows) r = false) ∧
  (NoDup (id <$> rawRows) → ∀ r, r ∈ rawRows →
     (id r ∈ actionable rawRows ↔
        status r ≠ Some "done" ∧ ∀ d, d ∈ depsOf r → d ∈ completed rawRows) ∧
     (depsOf r = [] → (id r ∈ actionable rawRows ↔ status r ≠ Some "done")) ∧
     (∀ d, d ∈ depsOf r → d ∉ id <$> rawRows → id r ∉ actionable rawRows)).
Proof.
  assert (Hmiss : ∀ r d, d ∈ depsOf r → d ∉ id <$> rawRows →
                         isActionable (completed rawRows) r = false).
  { intros r d Hd Hm. apply not_true_is_false.
    intros [_ Hall]%isActionable_iff.
    by apply (missing_dep_not_completed rawRows d Hm), Hall. }
  split_and!.
  - apply elem_of_completed.
  - intros i. rewrite elem_of_actionable.
    by setoid_rewrite isActionable_iff.
  - exact Hmiss.
  - intros Hnd r Hr. split_and!.
    + by rewrite actionable_row, isActionable_iff.
    + intros Hnil. rewrite actionable_row, isActionable_iff, Hnil by done.
      split; [by intros [? _]|]. intros Hs. split; [done|].
      intros d Hd. by apply elem_of_nil in Hd.
    + intros d Hd Hm. rewrite actionable_row by done.
      by rewrite (Hmiss r d Hd Hm).
Qed.

(** *** Search *)

Lemma hay_searchText r : hay r = Spec.searchText r.
Proof.
  unfold hay, Spec.searchText, Util.ci. cbn [fmap list_fmap Js.join].
  by rewrite JsFacts.or_else_empty.
Qed.

Lemma searchText_joined r :
  (∀ s t, Js.toLowerCase (s +:+ t) = Js.toLowerCase s +:+ Js.toLowerCase t) →
  Js.toLowerCase " " = " " →
  Spec.searchText r = Js.toLowerCase (Spec.joinedText r).
Proof.
  intros Happ Hsp. unfold Spec.searchText, Spec.joinedText.
  by rewrite !Happ, !Hsp.
Qed.

(** C8.  The search predicate accepts a row iff the lower-cased query occurs
    inside the text made of the lower-cased title, description, section,
    stage and tags cells joined by single spaces; the empty query accepts
    every row.  This holds for every lower-casing function.  For one that
    works through concatenation and keeps the space, that text is the
    lower-casing of the joined cells. *)
Theorem okSearch_spec (st : FilterState) (r : Row) :
  (okSearch st r = true ↔
     Spec.isSubstring (Js.toLowerCase (query st)) (Spec.searchText r)) ∧
  (query st = "" → okSearch st r = true) ∧
  ((∀ s t, Js.toLowerCase (s +:+ t) = Js.toLowerCase s +:+ Js.toLowerCase t) →
   Js.toLowerCase " " = " " →
   Spec.searchText r = Js.toLowerCase (Spec.joinedText r)).
Proof.
  unfold okSearch, q, Util.ci. rewrite JsFacts.or_else_empty, hay_searchText.
  split_and!.
  - destruct (Js.toLowerCase (query st)) as [|c s] eqn:Hq.
    + split; [|done]. intros _. by exists "", (Spec.searchText r).
    + apply JsFacts.includes_iff.
  - intros ->. by rewrite Js.toLowerCase_empty.
  - apply searchText_joined.
Qed.

(** *** Visible rows *)

Lemma filter_all {A} (P : A → Prop) `{∀ x, Decision (P x)} (l : list A) :
  Forall P l → filter P l = l.
Proof.
  induction 1 as [|x l Hx _ IH]; [done|]. by rewrite filter_cons_True, IH.
Qed.

Lemma Forall_filter_self {A} (P : A → Prop) `{∀ x, Decision (P x)} (l : list A) :
  Forall P (filter P l).
Proof. apply Forall_forall. by intros x [? _]%list_elem_of_filter. Qed.

Lemma visibleRows_sublist st rawRows :
  visibleRows st rawRows `sublist_of` rawRows.
Proof.
  unfold visibleRows. destruct (onlyNextActionable st); [|apply sublist_filter].
  etrans; apply sublist_filter.
Qed.

Lemma visibleRows_okAll st rawRows :
  Forall (λ r, okAll st r) (visibleRows st rawRows).
Proof.
  unfold visibleRows. destruct (onlyNextActionable st).
  - apply Forall_forall. intros r [_ Hr]%list_elem_of_filter.
    by apply list_elem_of_filter in Hr as [? _].
  - apply Forall_filter_self.
Qed.

Lemma elem_of_visibleRows st rawRows r :
  r ∈ visibleRows st rawRows ↔
  r ∈ rawRows ∧ okAll st r = true ∧
  (onlyNextActionable st = true → id r ∈ actionable rawRows).
Proof.
  unfold visibleRows. destruct (onlyNextActionable st).
  - rewrite !list_elem_of_filter, Is_true_true. tauto.
  - rewrite list_elem_of_filter, Is_true_true. intuition discriminate.
Qed.

Lemma filter_ext_in {A} (P Q : A → Prop)
    `{∀ x, Decision (P x)} `{∀ x, Decision (Q x)} (l : list A) :
  (∀ x, x ∈ l → P x ↔ Q x) → filter P l = filter Q l.
Proof.
  induction l as [|a l IH]; intros Hext; [done|].
  rewrite !filter_cons, IH by (intros x Hx; apply Hext; by right).
  destruct (Hext a) as [H1 H2]; [by left|].
  destruct (decide (P a)), (decide (Q a)); try done; tauto.
Qed.

Lemma visibleRows_NoDup_ids st rawRows :
  NoDup (id <$> rawRows) → NoDup (id <$> visibleRows st rawRows).
Proof.
  intros Hnd. eapply sublist_NoDup; [exact Hnd|].
  apply fmap_sublist, visibleRows_sublist.
Qed.

Lemma filter_fixed_iff {A} (P : A → Prop) `{∀ x, Decision (P x)} (l : list A) :
  filter P l = l ↔ Forall P l.
Proof.
  split; [|apply filter_all]. intros Heq. rewrite <- Heq.
  apply Forall_filter_self.
Qed.

Lemma visibleRows_again st rawRows :
  onlyNextActionable st = true →
  visibleRows st (visibleRows st rawRows)
  = filter (λ r, id r ∈ actionable (visibleRows st rawRows))
      (visibleRows st rawRows).
Proof.
  intros Hon. unfold visibleRows at 1. rewrite Hon.
  by rewrite (filter_all _ _ (visibleRows_okAll st rawRows)).
Qed.

Lemma visible_actionable_not_done st rawRows r :
  NoDup (id <$> rawRows) → onlyNextActionable st = true →
  r ∈ visibleRows st rawRows → status r ≠ Some "done".
Proof.
  intros Hnd Hon (Hr & _ & Hact)%elem_of_visibleRows.
  specialize (Hact Hon). apply (actionable_row _ _ Hnd Hr) in Hact.
  by apply isActionable_iff in Hact as [? _].
Qed.

Lemma second_pass_keeps st rawRows r :
  NoDup (id <$> rawRows) → onlyNextActionable st = true →
  r ∈ visibleRows st rawRows →
  id r ∈ actionable (visibleRows st rawRows) ↔ depsOf r = [].
Proof.
  intros Hnd Hon Hr.
  rewrite (actionable_row _ _ (visibleRows_NoDup_ids st rawRows Hnd) Hr).
  rewrite isActionable_iff. split.
  - intros [_ Hdeps]. destruct (depsOf r) as [|d ds]; [done|].
    assert (Hd : d ∈ completed (visibleRows st rawRows))
      by (apply Hdeps; by left).
    apply elem_of_completed in Hd as (r' & Hr' & _ & Hdone).
    by destruct (visible_actionable_not_done st rawRows r' Hnd Hon Hr').
  - intros Hnil. split; [by eapply visible_actionable_not_done|].
    rewrite Hnil. by intros d ?%elem_of_nil.
Qed.

(** C3, as the code has it.  The visible rows are a sublist of the rows.
    With the actionable-only flag off, filtering the output again with the
    same filter state changes nothing.  With the flag on, the predicates and
    membership in the actionable set of the original rows change nothing
    either; the component however recomputes that set from the rows it is
    given, so the second pass keeps the rows of the output that are
    actionable within the output: it changes nothing iff all of them are,
    and for pairwise distinct ids it keeps exactly the rows that list no
    dependency. *)
Theorem visibleRows_refilter (st : FilterState) (rawRows : list Row) :
  visibleRows st rawRows `sublist_of` rawRows ∧
  (∀ r, r ∈ visibleRows st rawRows → r ∈ rawRows) ∧
  (onlyNextActionable st = false →
     visibleRows st (visibleRows st rawRows) = visibleRows st rawRows) ∧
  (onlyNextActionable st = true →
     filter (λ r, id r ∈ actionable rawRows)
       (filter (λ r, okAll st r) (visibleRows st rawRows))
     = visibleRows st rawRows) ∧
  (onlyNextActionable st = true →
     visibleRows st (visibleRows st rawRows)
     = filter (λ r, id r ∈ actionable (visibleRows st rawRows))
         (visibleRows st rawRows)) ∧
  (onlyNextActionable st = true →
     visibleRows st (visibleRows st rawRows) = visibleRows st rawRows ↔
     ∀ r, r ∈ visibleRows st rawRows →
          id r ∈ actionable (visibleRows st rawRows)) ∧
  (onlyNextActionable st = true → NoDup (id <$> rawRows) →
     visibleRows st (visibleRows st rawRows)
     = filter (λ r, depsOf r = []) (visibleRows st rawRows)).
Proof.
  split_and!.
  - apply visibleRows_sublist.
  - intros r Hr. eapply elem_of_sublist; [exact Hr|apply visibleRows_sublist].
  - intros Hoff. unfold visibleRows at 1. rewrite Hoff.
    apply filter_all, visibleRows_okAll.
  - intros Hon. rewrite (filter_all _ _ (visibleRows_okAll st rawRows)).
    apply filter_all. unfold visibleRows. rewrite Hon.
    apply Forall_filter_self.
  - apply visibleRows_again.
  - intros Hon. rewrite (visibleRows_again st rawRows Hon).
    by rewrite filter_fixed_iff, Forall_forall.
  - intros Hon Hnd. rewrite (visibleRows_again st rawRows Hon).
    apply filter_ext_in. intros r Hr. by apply second_pass_keeps.
Qed.

(** *** Edges and nodes *)

Lemma nodesBuilt_ids st rawRows :
  Node.id <$> nodesBuilt st rawRows = id <$> visibleRows st rawRows.
Proof. unfold nodesBuilt. by rewrite <- list_fmap_compose. Qed.

Lemma elem_of_visibleIds st rawRows d :
  d ∈ visibleIds st rawRows ↔ ∃ r, r ∈ visibleRows st rawRows ∧ id r = d.
Proof.
  unfold visibleIds. rewrite elem_of_list_to_set, list_elem_of_fmap.
  split; intros (r & H1 & H2); exists r; by split.
Qed.

Lemma elem_of_edgesOf V r e :
  e ∈ edgesOf V r ↔ ∃ d, d ∈ depsOf r ∧ d ∈ V ∧ e = mkEdge d r.
Proof.
  unfold edgesOf. rewrite list_elem_of_fmap. split.
  - intros (d & -> & [HV Hd]%list_elem_of_filter). by exists d.
  - intros (d & Hd & HV & ->). exists d. split; [done|].
    by apply list_elem_of_filter.
Qed.

(** C2.  Both endpoints of every edge are ids of nodes, and an edge from
    [d] to [r] is built iff [r] is a visible row listing [d] and [d] is the
    id of a visible row. *)
Theorem edges_between_visible (st : FilterState) (rawRows : list Row) :
  (∀ e, e ∈ edgesBuilt st rawRows →
        Edge.source e ∈ Node.id <$> nodesBuilt st rawRows ∧
        Edge.target e ∈ Node.id <$> nodesBuilt st rawRows) ∧
  (∀ e, e ∈ edgesBuilt st rawRows ↔
        ∃ r d, r ∈ visibleRows st rawRows ∧ d ∈ depsOf r ∧
               (∃ r', r' ∈ visibleRows st rawRows ∧ id r' = d) ∧
               e = Edge.mk (d +:+ "->" +:+ id r) d (id r)).
Proof.
  assert (Hchar : ∀ e, e ∈ edgesBuilt st rawRows ↔
            ∃ r d, r ∈ visibleRows st rawRows ∧ d ∈ depsOf r ∧
                   (∃ r', r' ∈ visibleRows st rawRows ∧ id r' = d) ∧
                   e = Edge.mk (d +:+ "->" +:+ id r) d (id r)).
  { intros e. unfold edgesBuilt. rewrite list_elem_of_bind. split.
    - intros (r & (d & Hd & HV & ->)%elem_of_edgesOf & Hr).
      exists r, d. by rewrite <- elem_of_visibleIds.
    - intros (r & d & Hr & Hd & HV & ->). exists r. split; [|done].
      apply elem_of_edgesOf. exists d. by rewrite elem_of_visibleIds. }
  split; [|exact Hchar].
  intros e (r & d & Hr & _ & (r' & Hr' & <-) & ->)%Hchar.
  rewrite nodesBuilt_ids. simpl. split; by apply list_elem_of_fmap_2.
Qed.

Lemma mkEdge_inj r d1 d2 : mkEdge d1 r = mkEdge d2 r → d1 = d2.
Proof. unfold mkEdge. by intros [= _ ->]. Qed.

Lemma occurrences_fmap_inj {A B} `{EqDecision A, EqDecision B}
    (f : A → B) (x : A) (l : list A) :
  (∀ y, f y = f x → y = x) →
  Spec.occurrences (f x) (f <$> l) = Spec.occurrences x l.
Proof.
  intros Hinj. unfold Spec.occurrences.
  induction l as [|a l IH]; [done|]. rewrite fmap_cons, !filter_cons.
  destruct (decide (f a = f x)) as [Hfa|Hfa], (decide (a = x)) as [Ha|Ha];
    simpl; rewrite ?IH; try done.
  - by apply Hinj in Hfa.
  - by subst.
Qed.

Lemma occurrences_filter {A} `{EqDecision A}
    (P : A → Prop) `{∀ x, Decision (P x)} (x : A) (l : list A) :
  Spec.occurrences x (filter P l)
  = if decide (P x) then Spec.occurrences x l else 0.
Proof.
  unfold Spec.occurrences. induction l as [|a l IH].
  - by destruct (decide (P x)).
  - rewrite (filter_cons P), (filter_cons (λ y, y = x) a l).
    destruct (decide (P a)) as [HPa|HPa].
    + rewrite filter_cons. destruct (decide (a = x)) as [->|Ha]; simpl;
        rewrite IH; by destruct (decide (P x)).
    + rewrite IH. destruct (decide (a = x)) as [->|Ha]; [|done].
      by destruct (decide (P x)).
Qed.

Lemma occurrences_app {A} `{EqDecision A} (x : A) (l k : list A) :
  Spec.occurrences x (l ++ k) = Spec.occurrences x l + Spec.occurrences x k.
Proof. unfold Spec.occurrences. by rewrite filter_app, length_app. Qed.

Lemma occurrences_bind {A B} `{EqDecision B} (f : A → list B) (y : B)
    (l : list A) :
  Spec.occurrences y (l ≫= f) = sum_list_with (λ x, Spec.occurrences y (f x)) l.
Proof.
  induction l as [|a l IH]; [done|].
  change ((a :: l) ≫= f) with (f a ++ (l ≫= f))%list.
  by rewrite occurrences_app, IH.
Qed.

Lemma occurrences_absent {A} `{EqDecision A} (x : A) (l : list A) :
  x ∉ l → Spec.occurrences x l = 0.
Proof.
  intros Hx. unfold Spec.occurrences.
  destruct (filter (λ y, y = x) l) as [|y k] eqn:Hf; [done|].
  assert (Hy : y ∈ filter (λ y, y = x) l) by (rewrite Hf; by left).
  apply list_elem_of_filter in Hy as [-> Hy]. by destruct Hx.
Qed.

Lemma occurrences_cons {A} `{EqDecision A} (x a : A) (l : list A) :
  Spec.occurrences x (a :: l)
  = ((if decide (a = x) then 1 else 0) + Spec.occurrences x l)%nat.
Proof.
  unfold Spec.occurrences. rewrite filter_cons.
  by destruct (decide (a = x)).
Qed.

Lemma occurrences_NoDup {A} `{EqDecision A} (x : A) (l : list A) :
  NoDup l → (Spec.occurrences x l ≤ 1)%nat.
Proof.
  induction 1 as [|a l Ha _ IH]; [by apply Nat.le_0_l|].
  rewrite occurrences_cons. destruct (decide (a = x)) as [->|Hne]; [|done].
  by rewrite (occurrences_absent x l Ha).
Qed.

Lemma occurrences_edgesOf V r d :
  Spec.occurrences (mkEdge d r) (edgesOf V r)
  = if decide (d ∈ V) then Spec.occurrences d (depsOf r) else 0.
Proof.
  unfold edgesOf.
  rewrite (occurrences_fmap_inj (λ dep, mkEdge dep r) d)
    by (intros y; apply mkEdge_inj).
  exact (occurrences_filter (λ dep, dep ∈ V) d (depsOf r)).
Qed.

Lemma occurrences_edgesOf_pair V r d t :
  Spec.occurrences (Edge.mk (d +:+ "->" +:+ t) d t) (edgesOf V r)
  = if decide (id r = t)
    then if decide (d ∈ V) then Spec.occurrences d (depsOf r) else 0
    else 0.
Proof.
  destruct (decide (id r = t)) as [<-|Hne]; [apply occurrences_edgesOf|].
  apply occurrences_absent. intros (d' & _ & _ & [= _ _ ?])%elem_of_edgesOf.
  by destruct Hne.
Qed.

Lemma sum_list_with_pointwise {A} (f g : A → nat) (l : list A) :
  (∀ x, f x = g x) → sum_list_with f l = sum_list_with g l.
Proof.
  intros Hfg. induction l as [|a l IH]; [done|]. simpl. by rewrite Hfg, IH.
Qed.

Lemma sum_list_with_filter {A} (P : A → Prop) `{∀ x, Decision (P x)}
    (g : A → nat) (l : list A) :
  sum_list_with (λ x, if decide (P x) then g x else 0) l
  = sum_list_with g (filter P l).
Proof.
  induction l as [|a l IH]; [done|]. rewrite filter_cons. simpl.
  destruct (decide (P a)); simpl; by rewrite IH.
Qed.

Lemma sum_list_with_guard {A} (c : Prop) `{Decision c} (g : A → nat)
    (l : list A) :
  sum_list_with (λ x, if decide c then g x else 0) l
  = if decide c then sum_list_with g l else 0.
Proof.
  destruct (decide c); [done|]. induction l as [|a l IH]; [done|]. simpl.
  by rewrite IH.
Qed.

Lemma filter_same_key {A B} `{EqDecision B} (f : A → B) (l : list A) x :
  NoDup (f <$> l) → x ∈ l → filter (λ y, f y = f x) l = [x].
Proof.
  induction l as [|a l IH]; intros Hnd Hx; [by apply elem_of_nil in Hx|].
  rewrite fmap_cons in Hnd. apply NoDup_cons in Hnd as [Ha Hnd].
  rewrite filter_cons. apply elem_of_cons in Hx as [->|Hx].
  - rewrite decide_True by done. f_equal.
    destruct (filter (λ y, f y = f a) l) as [|y k] eqn:Hf; [done|].
    assert (Hy : y ∈ filter (λ y, f y = f a) l) by (rewrite Hf; by left).
    apply list_elem_of_filter in Hy as [Hfy Hy]. destruct Ha.
    rewrite <- Hfy. by apply list_elem_of_fmap_2.
  - rewrite decide_False; [by apply IH|].
    intros Heq. apply Ha. rewrite Heq. by apply list_elem_of_fmap_2.
Qed.

Lemma occurrences_edgesBuilt st rawRows d t :
  Spec.occurrences (Edge.mk (d +:+ "->" +:+ t) d t) (edgesBuilt st rawRows)
  = if decide (d ∈ visibleIds st rawRows)
    then sum_list_with (λ r, Spec.occurrences d (depsOf r))
           (filter (λ r, id r = t) (visibleRows st rawRows))
    else 0.
Proof.
  unfold edgesBuilt. rewrite occurrences_bind.
  rewrite <- (sum_list_with_guard (d ∈ visibleIds st rawRows)).
  rewrite <- (sum_list_with_filter (λ r, id r = t)).
  apply sum_list_with_pointwise. intros r. apply occurrences_edgesOf_pair.
Qed.

(** C4, as the code has it.  For an ordered pair of ids [(d, t)] the graph
    builder emits as many edges [d -> t] as [d] occurs in the split
    dependency lists of the visible rows with id [t] when [d] is the id of
    a visible row, and none otherwise.  With pairwise distinct row ids that
    is, for a visible row, the number of times the row lists [d]: at most
    one edge per pair when the row lists no id twice.  A row contributes one
    edge per occurrence whatever the other rows are. *)
Theorem edges_per_listing (st : FilterState) (rawRows : list Row) :
  (∀ d t,
     Spec.occurrences (Edge.mk (d +:+ "->" +:+ t) d t) (edgesBuilt st rawRows)
     = if decide (d ∈ visibleIds st rawRows)
       then sum_list_with (λ r, Spec.occurrences d (depsOf r))
              (filter (λ r, id r = t) (visibleRows st rawRows))
       else 0) ∧
  (NoDup (id <$> rawRows) → ∀ r d, r ∈ visibleRows st rawRows →
     Spec.occurrences (mkEdge d r) (edgesBuilt st rawRows)
     = if decide (d ∈ visibleIds st rawRows)
       then Spec.occurrences d (depsOf r) else 0) ∧
  (NoDup (id <$> rawRows) → ∀ r d, r ∈ visibleRows st rawRows →
     NoDup (depsOf r) →
     (Spec.occurrences (mkEdge d r) (edgesBuilt st rawRows) ≤ 1)%nat) ∧
  (∀ r d,
     Spec.occurrences (mkEdge d r) (edgesOf (visibleIds st rawRows) r)
     = if decide (d ∈ visibleIds st rawRows)
       then Spec.occurrences d (depsOf r) else 0).
Proof.
  assert (Hrow : NoDup (id <$> rawRows) → ∀ r d, r ∈ visibleRows st rawRows →
            Spec.occurrences (mkEdge d r) (edgesBuilt st rawRows)
            = if decide (d ∈ visibleIds st rawRows)
              then Spec.occurrences d (depsOf r) else 0).
  { intros Hnd r d Hr. unfold mkEdge. rewrite occurrences_edgesBuilt.
    rewrite (filter_same_key id _ r (visibleRows_NoDup_ids st rawRows Hnd) Hr).
    simpl. by rewrite Nat.add_0_r. }
  split_and!.
  - apply occurrences_edgesBuilt.
  - exact Hrow.
  - intros Hnd r d Hr Hdeps. rewrite (Hrow Hnd r d Hr).
    destruct (decide _); [by apply occurrences_NoDup|apply Nat.le_0_l].
  - intros r d. apply occurrences_edgesOf.
Qed.

(** *** Row mutation *)

(** C7.  The handler keeps the number and order of rows; a row with another
    id is returned as it is, and a row with the named id keeps every field
    but [status], which becomes "done" or "todo" as the checkbox says. *)
Theorem onChange_frame (rawRows : list Row) (r : Row) (checked : bool) :
  length (onChange rawRows r checked) = length rawRows ∧
  ∀ k rr, rawRows !! k = Some rr →
    (id rr ≠ id r → onChange rawRows r checked !! k = Some rr) ∧
    (id rr = id r →
       ∃ rr', onChange rawRows r checked !! k = Some rr' ∧
              status rr' = Some (if checked then "done" else "todo") ∧
              id rr' = id rr ∧ title rr' = title rr ∧
              section rr' = section rr ∧ stage rr' = stage rr ∧
              description rr' = description rr ∧ priority rr' = priority rr ∧
              depends_on rr' = depends_on rr ∧ tags rr' = tags rr).
Proof.
  unfold onChange. split; [apply length_fmap|].
  intros k rr Hk. rewrite list_lookup_fmap, Hk. simpl. split; intros Hid.
  - by rewrite bool_decide_eq_false_2.
  - rewrite bool_decide_eq_true_2 by done. eexists. split; [done|].
    by destruct checked.
Qed.

Lemma isDone_withStatus rr (b : bool) :
  isDone (withStatus rr (if b then "done" else "todo")) = b.
Proof. by destruct b. Qed.

Lemma filter_fmap_inv {A} (g : A → A) (P : A → Prop)
    `{∀ x, Decision (P x)} (l : list A) :
  (∀ x, P (g x) ↔ P x) → filter P (g <$> l) = g <$> filter P l.
Proof.
  intros Hinv. induction l as [|a l IH]; [done|].
  rewrite fmap_cons, !filter_cons, IH.
  destruct (decide (P (g a))) as [Hga|Hga], (decide (P a)) as [Ha|Ha];
    [done| | |done].
  - destruct (Hinv a) as [Hto _]. by destruct Ha; apply Hto.
  - destruct (Hinv a) as [_ Hfrom]. by destruct Hga; apply Hfrom.
Qed.

Section SameView.
Variable g : Row → Row.
Hypothesis g_same : ∀ r, Spec.sameView r (g r).

Lemma same_id r : id (g r) = id r.
Proof. by destruct (g_same r) as (? & _). Qed.

Lemma same_ids (l : list Row) : id <$> (g <$> l) = id <$> l.
Proof.
  rewrite <- list_fmap_compose. apply list_fmap_ext. intros _ r _.
  apply same_id.
Qed.

Lemma same_isDone r : isDone (g r) = isDone r.
Proof. by destruct (g_same r) as (_ & _ & _ & _ & _ & _ & _ & _ & ?). Qed.

Lemma same_depsOf r : depsOf (g r) = depsOf r.
Proof.
  destruct (g_same r) as (_ & _ & _ & _ & _ & _ & Hd & _).
  unfold depsOf. by rewrite Hd.
Qed.

Lemma same_isActionable D r : isActionable D (g r) = isActionable D r.
Proof. unfold isActionable. by rewrite same_isDone, same_depsOf. Qed.

Lemma same_okAll st r : okAll st (g r) = okAll st r.
Proof.
  destruct (g_same r) as (_ & Ht & Hsec & Hst & Hde & _ & _ & Htg & Hdn).
  unfold okAll, okStatus, okStage, okSection, okTags, okSearch, hay.
  by rewrite Ht, Hsec, Hst, Hde, Htg, Hdn.
Qed.

Lemma same_mkNode r : mkNode (g r) = mkNode r.
Proof.
  destruct (g_same r) as (Hi & Ht & Hsec & Hst & Hde & Hp & _ & _ & Hdn).
  unfold mkNode. by rewrite Hi, Ht, Hsec, Hst, Hde, Hp, Hdn.
Qed.

Lemma same_edgesOf V r : edgesOf V (g r) = edgesOf V r.
Proof. unfold edgesOf, mkEdge. by rewrite same_depsOf, same_id. Qed.

Lemma same_completed rows : completed (g <$> rows) = completed rows.
Proof.
  unfold completed. rewrite (filter_fmap_inv g), same_ids; [done|].
  intros r. by rewrite same_isDone.
Qed.

Lemma same_actionable rows : actionable (g <$> rows) = actionable rows.
Proof.
  unfold actionable. rewrite same_completed.
  rewrite (filter_fmap_inv g), same_ids; [done|].
  intros r. by rewrite same_isActionable.
Qed.

Lemma same_visibleRows st rows :
  visibleRows st (g <$> rows) = g <$> visibleRows st rows.
Proof.
  unfold visibleRows. rewrite same_actionable.
  assert (Hok : filter (λ r, okAll st r) (g <$> rows)
                = g <$> filter (λ r, okAll st r) rows).
  { apply filter_fmap_inv. intros r. by rewrite same_okAll. }
  rewrite Hok. destruct (onlyNextActionable st); [|done].
  apply filter_fmap_inv. intros r. by rewrite same_id.
Qed.

Lemma same_nodesBuilt st rows : nodesBuilt st (g <$> rows) = nodesBuilt st rows.
Proof.
  unfold nodesBuilt. rewrite same_visibleRows, <- list_fmap_compose.
  apply list_fmap_ext. intros _ r _. apply same_mkNode.
Qed.

Lemma same_edgesBuilt st rows : edgesBuilt st (g <$> rows) = edgesBuilt st rows.
Proof.
  unfold edgesBuilt, visibleIds.
  rewrite same_visibleRows, same_ids, list_fmap_bind.
  apply list_bind_ext; [|done]. intros r. apply same_edgesOf.
Qed.
End SameView.

Lemma restatus_sameView i r : Spec.sameView r (Spec.restatus i r).
Proof.
  unfold Spec.sameView, Spec.restatus.
  destruct (bool_decide (id r = i)); [|done].
  split_and!; try done. apply isDone_withStatus.
Qed.

Lemma click_elem_isDone rawRows r r1 :
  r1 ∈ click rawRows r → id r1 = id r → isDone r1 = negb (isDone r).
Proof.
  unfold click, onChange. intros (rr & -> & _)%list_elem_of_fmap Hid.
  destruct (bool_decide (id rr = id r)) eqn:Hrr.
  - apply isDone_withStatus.
  - by apply bool_decide_eq_false in Hrr.
Qed.

Lemma click_click rawRows r r1 :
  NoDup (id <$> rawRows) → r ∈ rawRows →
  r1 ∈ click rawRows r → id r1 = id r →
  click (click rawRows r) r1 = Spec.restatus (id r) <$> rawRows.
Proof.
  intros Hnd Hr Hr1 Hid. unfold click at 1.
  rewrite (click_elem_isDone rawRows r r1 Hr1 Hid), negb_involutive.
  unfold click, onChange. rewrite <- list_fmap_compose, Hid.
  apply list_fmap_ext. intros k rr Hk. simpl. unfold Spec.restatus.
  destruct (bool_decide (id rr = id r)) eqn:Hrr; simpl.
  - rewrite Hrr. apply bool_decide_eq_true in Hrr.
    assert (rr = r) as ->.
    { apply (NoDup_fmap_eq id rawRows); [done| |done..].
      by eapply list_elem_of_lookup_2. }
    reflexivity.
  - by rewrite Hrr.
Qed.

Lemma restatus_id_on i (rawRows : list Row) :
  (∀ rr, rr ∈ rawRows → id rr = i →
         status rr = Some "todo" ∨ status rr = Some "done") →
  Spec.restatus i <$> rawRows = rawRows.
Proof.
  intros Hst. rewrite <- (list_fmap_id rawRows) at 2.
  apply list_fmap_ext. intros k rr Hk. unfold Spec.restatus.
  destruct (bool_decide (id rr = i)) eqn:Hrr; [|done].
  apply bool_decide_eq_true in Hrr.
  destruct (Hst rr) as [Hs|Hs]; [by eapply list_elem_of_lookup_2|done|..];
    destruct rr; simpl in *; subst; reflexivity.
Qed.

(** C6.  In a row set with pairwise distinct ids, clicking the checkbox of a
    row and then the checkbox of that row again gives back the done set, the
    actionable set, the node list and the edge list of the start, for any
    fixed filter state; the rows themselves come back unchanged when the
    row's status was "todo" or "done". *)
Theorem toggle_roundtrip (st : FilterState) (rawRows : list Row) (r r1 : Row) :
  NoDup (id <$> rawRows) → r ∈ rawRows →
  r1 ∈ click rawRows r → id r1 = id r →
  let back := click (click rawRows r) r1 in
  completed back = completed rawRows ∧
  actionable back = actionable rawRows ∧
  nodesBuilt st back = nodesBuilt st rawRows ∧
  edgesBuilt st back = edgesBuilt st rawRows ∧
  (status r = Some "todo" ∨ status r = Some "done" → back = rawRows).
Proof.
  intros Hnd Hr Hr1 Hid back. unfold back.
  rewrite (click_click rawRows r r1 Hnd Hr Hr1 Hid).
  pose proof (restatus_sameView (id r)) as Hsame.
  split_and!.
  - by apply same_completed.
  - by apply same_actionable.
  - by apply same_nodesBuilt.
  - by apply same_edgesBuilt.
  - intros Hs. apply restatus_id_on. intros rr Hrr Hrid.
    by rewrite (NoDup_fmap_eq id rawRows rr r Hnd Hrr Hr Hrid).
Qed.

(** *** Rows without a stage *)

Lemma normalise_stage_absent r :
  Js.truthy (stage r) = false → stage (normalise r) = Some "Unsorted".
Proof. intros Habs. simpl. by rewrite (JsFacts.or_else_None_iff _ _ Habs). Qed.

Lemma mergeSaved_stage saved r : stage (mergeSaved saved r) = stage r.
Proof.
  unfold mergeSaved. destruct (saved !! id r) as [s|]; [|done].
  by destruct (Js.truthy (Some s)).
Qed.

Lemma okStage_Unsorted st r :
  selectedStages st = STAGE_ORDER → stage r = Some "Unsorted" →
  okStage st r = false.
Proof.
  intros Hsel Hst. unfold okStage. rewrite Hsel, Hst.
  apply bool_decide_eq_false. by_eval.
Qed.

(** C10.  With the four enum stages selected, a row that the CSV delivers
    without a stage is stored with stage "Unsorted", fails the stage
    predicate and is absent from the visible rows, whatever the other
    filters are. *)
Theorem unsorted_hidden_by_default
    (saved : gmap string string) (data : list Row) (st : FilterState) (r : Row) :
  selectedStages st = STAGE_ORDER → r ∈ data → Js.truthy (stage r) = false →
  let r' := mergeSaved saved (normalise r) in
  r' ∈ loadRows saved data ∧
  stage r' = Some "Unsorted" ∧
  okStage st r' = false ∧
  r' ∉ visibleRows st (loadRows saved data).
Proof.
  intros Hsel Hr Habs r'.
  assert (Hst : stage r' = Some "Unsorted").
  { unfold r'. by rewrite mergeSaved_stage, normalise_stage_absent. }
  assert (Hko : okStage st r' = false) by by apply okStage_Unsorted.
  split_and!; [|done..|].
  - unfold loadRows. by do 2 apply list_elem_of_fmap_2.
  - intros (_ & Hok & _)%elem_of_visibleRows. unfold okAll in Hok.
    rewrite Hko, andb_false_r in Hok. done.
Qed.

(** *** The defaulting effect *)

Lemma allSections_elem (rows : list Row) r :
  r ∈ rows → Js.or_else (section r) "General" ∈ allSections rows.
Proof.
  intros Hr. unfold allSections. rewrite merge_sort_Permutation.
  apply elem_of_remove_dups. by apply list_elem_of_fmap_2'  with r.
Qed.

Lemma allSections_nonempty (rows : list Row) :
  rows ≠ [] → allSections rows ≠ [].
Proof.
  destruct rows as [|r rows]; [done|]. intros _ Hnil.
  pose proof (allSections_elem (r :: rows) r) as Hin.
  rewrite Hnil in Hin. eapply elem_of_nil, Hin. by left.
Qed.

(** Once rows are loaded, emptying the selection makes the effect run and
    select every section again. *)
Lemma none_reselects_all (c : State) :
  rawRows c ≠ [] → selectedSections (filters c) ≠ [] →
  lastDeps c = Some (effectDeps c) →
  selectedSections (filters (dispatch c SectionsNone)) = allSections (rawRows c).
Proof.
  intros Hrows Hsel Hdeps.
  pose proof (allSections_nonempty _ Hrows) as Hall.
  destruct c as [rows ref [qy sf stg secs tgs ona] deps].
  unfold effectDeps in Hdeps. simpl in *. subst deps.
  destruct rows as [|r rows]; [done|]. destruct secs as [|sec secs]; [done|].
  unfold dispatch, handle, setSelectedSections, effectDeps. simpl.
  rewrite decide_False by (intros [=]).
  unfold defaultSections, setSelectedSections, effectDeps. simpl.
  destruct (allSections (r :: rows)) as [|a all'] eqn:Hall'; [done|].
  rewrite decide_False by (intros [=]). simpl.
  by rewrite decide_True.
Qed.

(** C9 on the code.  After the load the selection is the set of observed
    sections.  Pressing "None", or unticking the last selected chip, empties
    the selection; the effect, whose dependency array holds
    [selectedSections.length], runs again and selects every section. *)
Theorem sections_default_reapplied :
  let rows := [sampleIn "Alpha" "A"; sampleIn "Beta" "B"] in
  let loaded := run [Loaded ∅ rows] in
  selectedSections (filters loaded) = ["Alpha"; "Beta"] ∧
  selectedSections (filters (handle SectionsNone loaded)) = [] ∧
  selectedSections (filters (dispatch loaded SectionsNone)) = ["Alpha"; "Beta"] ∧
  selectedSections
    (filters (run [Loaded ∅ rows; SectionChip "Alpha"; SectionChip "Beta"]))
  = ["Alpha"; "Beta"].
Proof. intros rows loaded. split_and!; by vm_compute. Qed.

End Generic.

(** *** Sample evaluations *)

(** C3, as stated, fails: with the actionable-only flag on, a todo row whose
    done dependency has been filtered out is dropped by a second pass. *)
Lemma visibleRows_not_idempotent :
  let rows := [sampleRow "A" "" "done"; sampleRow "B" "A" "todo"] in
  let st := actionableOnly rows in
  visibleRows st rows = [sampleRow "B" "A" "todo"] ∧
  visibleRows st (visibleRows st rows) = [] ∧
  visibleRows st (visibleRows st rows) ≠ visibleRows st rows.
Proof. intros rows st. split_and!; [by vm_compute..|]. by_eval. Qed.

(** C4, as stated, fails: a visible row whose dependency cell is "A|A"
    yields two edges with the identifier "A->B". *)
Lemma duplicate_dependency_two_edges :
  let rows := [sampleRow "A" "" "done"; sampleRow "B" "A|A" "todo"] in
  let st := defaultFilters rows in
  sampleRow "B" "A|A" "todo" ∈ visibleRows st rows ∧
  edgesBuilt st rows
  = [Edge.mk "A->B" "A" "B"; Edge.mk "A->B" "A" "B"] ∧
  ¬ NoDup (Edge.id <$> edgesBuilt st rows).
Proof. intros rows st. split_and!; [by_eval|by vm_compute|by_eval]. Qed.

Lemma actionable_exact_witness :
  let rows := [sampleRow "A" "" "done"; sampleRow "B" "A" "todo";
               sampleRow "C" "X" "todo"] in
  NoDup (id <$> rows) ∧
  id (sampleRow "B" "A" "todo") ∈ actionable rows ∧
  id (sampleRow "C" "X" "todo") ∉ actionable rows.
Proof.
  intros rows.
  assert (Hnd : NoDup (id <$> rows)) by by_eval.
  destruct (actionable_exact rows) as (_ & _ & _ & Hrow).
  split; [exact Hnd|]. split.
  - destruct (Hrow Hnd (sampleRow "B" "A" "todo")) as (Hiff & _ & _); [by_eval|].
    apply Hiff. split; [done|]. intros d Hd.
    assert (d = "A") as ->
      by (vm_compute in Hd; by apply list_elem_of_singleton in Hd).
    by_eval.
  - destruct (Hrow Hnd (sampleRow "C" "X" "todo")) as (_ & _ & Hmiss); [by_eval|].
    apply (Hmiss "X"); by_eval.
Defined.

Lemma okSearch_spec_witness :
  okSearch (mkFilterState "" done [] [] [] true)
           (sampleRow "A" "" "done") = true ∧
  okSearch (mkFilterState "SetUp" all [] [] [] false)
           (sampleRow "A" "" "done") = true ∧
  okSearch (mkFilterState "todo" all [] [] [] false)
           (sampleRow "A" "" "todo") = false ∧
  Spec.searchText (sampleRow "A" "" "done")
  = Js.toLowerCase (Spec.joinedText (sampleRow "A" "" "done")).
Proof.
  split_and!.
  - by apply (okSearch_spec (mkFilterState "" done [] [] [] true)
                (sampleRow "A" "" "done")).
  - destruct (okSearch_spec (mkFilterState "SetUp" all [] [] [] false)
                (sampleRow "A" "" "done")) as [Hiff _].
    apply Hiff. by exists "a   ", " ".
  - destruct (okSearch_spec (mkFilterState "todo" all [] [] [] false)
                (sampleRow "A" "" "todo")) as [Hiff _].
    apply not_true_is_false. intros Hok%Hiff.
    apply JsFacts.includes_iff in Hok. by vm_compute in Hok.
  - destruct (okSearch_spec (mkFilterState "" all [] [] [] false)
                (sampleRow "A" "" "done")) as (_ & _ & Hjoin).
    apply Hjoin; [apply JsFacts.lowerAscii_app|reflexivity].
Defined.

Lemma visibleRows_refilter_witness :
  let rows := [sampleRow "A" "" "done"; sampleRow "B" "A" "todo";
               sampleRow "C" "" "todo"] in
  visibleRows (defaultFilters rows) (visibleRows (defaultFilters rows) rows)
  = visibleRows (defaultFilters rows) rows ∧
  filter (λ r, id r ∈ actionable rows)
    (filter (λ r, okAll (actionableOnly rows) r)
       (visibleRows (actionableOnly rows) rows))
  = visibleRows (actionableOnly rows) rows ∧
  NoDup (id <$> rows) ∧
  visibleRows (actionableOnly rows) (visibleRows (actionableOnly rows) rows)
  = [sampleRow "C" "" "todo"].
Proof.
  intros rows.
  assert (Hnd : NoDup (id <$> rows)) by by_eval.
  destruct (visibleRows_refilter (defaultFilters rows) rows)
    as (_ & _ & Hoff & _).
  destruct (visibleRows_refilter (actionableOnly rows) rows)
    as (_ & _ & _ & Hon & _ & _ & Hdeps).
  split_and!; [by apply Hoff|by apply Hon|exact Hnd|].
  by rewrite Hdeps.
Defined.

Lemma edges_between_visible_witness :
  let rows := [sampleRow "A" "" "done"; sampleRow "B" "A" "todo"] in
  Edge.mk "A->B" "A" "B" ∈ edgesBuilt (defaultFilters rows) rows ∧
  "A" ∈ Node.id <$> nodesBuilt (defaultFilters rows) rows ∧
  "B" ∈ Node.id <$> nodesBuilt (defaultFilters rows) rows.
Proof.
  intros rows.
  assert (He : Edge.mk "A->B" "A" "B" ∈ edgesBuilt (defaultFilters rows) rows).
  { apply (edges_between_visible (defaultFilters rows) rows).
    exists (sampleRow "B" "A" "todo"), "A". split_and!; [by_eval..| |done].
    exists (sampleRow "A" "" "done"). split; [by_eval|done]. }
  split; [exact He|].
  exact (proj1 (edges_between_visible (defaultFilters rows) rows) _ He).
Defined.

Lemma edges_per_listing_witness :
  let rows := [sampleRow "A" "" "done"; sampleRow "B" "A" "todo"] in
  NoDup (id <$> rows) ∧
  Spec.occurrences (mkEdge "A" (sampleRow "B" "A" "todo"))
    (edgesBuilt (defaultFilters rows) rows) = 1 ∧
  (Spec.occurrences (mkEdge "A" (sampleRow "B" "A" "todo"))
     (edgesBuilt (defaultFilters rows) rows) ≤ 1)%nat.
Proof.
  intros rows.
  assert (Hnd : NoDup (id <$> rows)) by by_eval.
  destruct (edges_per_listing (defaultFilters rows) rows)
    as (_ & Hcount & Hone & _).
  split_and!; [exact Hnd| |].
  - rewrite (Hcount Hnd); [reflexivity|by_eval].
  - apply (Hone Hnd); by_eval.
Defined.

Lemma onChange_frame_witness :
  let rows := [sampleRow "A" "" "todo"; sampleRow "B" "A" "todo"] in
  onChange rows (sampleRow "A" "" "todo") true !! 1
  = Some (sampleRow "B" "A" "todo") ∧
  ∃ rr', onChange rows (sampleRow "A" "" "todo") true !! 0 = Some rr' ∧
         status rr' = Some "done" ∧ depends_on rr' = Some "".
Proof.
  intros rows.
  destruct (onChange_frame rows (sampleRow "A" "" "todo") true) as [_ Hrows].
  split.
  - by apply (Hrows 1 (sampleRow "B" "A" "todo")).
  - destruct (Hrows 0 (sampleRow "A" "" "todo")) as [_ Hsame]; [done|].
    destruct Hsame as (rr' & Hk & Hs & _ & _ & _ & _ & _ & _ & Hd & _); [done|].
    by exists rr'.
Defined.

Lemma toggle_roundtrip_witness :
  let rows := [sampleRow "A" "" "blocked"; sampleRow "B" "A" "todo"] in
  let st := defaultFilters rows in
  let back := click (click rows (sampleRow "A" "" "blocked"))
                (sampleRow "A" "" "done") in
  NoDup (id <$> rows) ∧
  actionable back = actionable rows ∧
  nodesBuilt st back = nodesBuilt st rows ∧
  edgesBuilt st back = edgesBuilt st rows.
Proof.
  intros rows st back.
  assert (Hnd : NoDup (id <$> rows)) by by_eval.
  split; [exact Hnd|].
  destruct (toggle_roundtrip st rows (sampleRow "A" "" "blocked")
              (sampleRow "A" "" "done") Hnd) as (_ & Ha & Hn & He & _);
    [by_eval|by_eval|done|].
  by split_and!.
Defined.

Lemma unsorted_hidden_by_default_witness :
  let raw := mkRow "C" "c" None None None None None None None in
  let data := [sampleRow "A" "" "done"; raw] in
  let rows := loadRows ∅ data in
  mergeSaved ∅ (normalise raw) ∈ rows ∧
  mergeSaved ∅ (normalise raw) ∉ visibleRows (defaultFilters rows) rows.
Proof.
  intros raw data rows.
  destruct (unsorted_hidden_by_default ∅ data (defaultFilters rows) raw)
    as (Hin & _ & _ & Hout); [done|by_eval|done|].
  by split.
Defined.

End FlowchartProofs.

(** ** Further properties: helpers, chips, badge, persistence, effect *)

Module FlowchartMore.
Import Flowchart FlowchartProofs.

Section Generic.
Context `{L : Js.Lowering}.

(** *** Trimming and splitting *)

Lemma trimStart_head s : Spec.headNonSpace (Js.trimStart s).
Proof.
  induction s as [|c s IH]; [done|]. simpl.
  by destruct (Ascii.is_space c) eqn:Hc.
Qed.

Lemma trimStart_fixed s : Spec.headNonSpace s → Js.trimStart s = s.
Proof. destruct s as [|c s]; [done|]. simpl. by intros ->. Qed.

Lemma trimEnd_cons c s :
  Js.trimEnd (String c s)
  = match Js.trimEnd s with
    | "" => if Ascii.is_space c then "" else String c ""
    | t => String c t
    end.
Proof. reflexivity. Qed.

Lemma trimEnd_head s : Spec.headNonSpace s → Spec.headNonSpace (Js.trimEnd s).
Proof.
  destruct s as [|c s]; [done|]. rewrite trimEnd_cons. simpl. intros Hc.
  destruct (Js.trimEnd s); by rewrite ?Hc.
Qed.

Lemma trimEnd_idemp s : Js.trimEnd (Js.trimEnd s) = Js.trimEnd s.
Proof.
  induction s as [|c s IH]; [done|]. rewrite trimEnd_cons.
  destruct (Js.trimEnd s) as [|d t] eqn:Ht.
  - destruct (Ascii.is_space c) eqn:Hc; [done|].
    rewrite trimEnd_cons. simpl. by rewrite Hc.
  - rewrite trimEnd_cons. by rewrite IH.
Qed.

Lemma trim_idemp s : Js.trim (Js.trim s) = Js.trim s.
Proof.
  unfold Js.trim.
  rewrite (trimStart_fixed (Js.trimEnd (Js.trimStart s)))
    by apply trimEnd_head, trimStart_head.
  apply trimEnd_idemp.
Qed.

Lemma hasChar_cons c d s :
  Spec.hasChar c (String d s) ↔ c = d ∨ Spec.hasChar c s.
Proof. unfold Spec.hasChar. simpl. apply elem_of_cons. Qed.

Lemma hasChar_nil c : ¬ Spec.hasChar c "".
Proof. unfold Spec.hasChar. simpl. apply not_elem_of_nil. Qed.

Lemma trimStart_chars c s : Spec.hasChar c (Js.trimStart s) → Spec.hasChar c s.
Proof.
  induction s as [|d s IH]; [done|]. simpl.
  destruct (Ascii.is_space d); [|done].
  intros H. apply hasChar_cons. right. by apply IH.
Qed.

Lemma trimEnd_chars c s : Spec.hasChar c (Js.trimEnd s) → Spec.hasChar c s.
Proof.
  induction s as [|d s IH]; [done|]. rewrite trimEnd_cons.
  destruct (Js.trimEnd s) as [|e t] eqn:Ht.
  - destruct (Ascii.is_space d); [by intros ?%hasChar_nil|].
    intros [->|?%hasChar_nil]%hasChar_cons; [|done].
    apply hasChar_cons. by left.
  - intros [->|H]%hasChar_cons; apply hasChar_cons; [by left|].
    right. by apply IH.
Qed.

Lemma trim_chars c s : Spec.hasChar c (Js.trim s) → Spec.hasChar c s.
Proof. intros H. by apply trimStart_chars, trimEnd_chars. Qed.

Lemma split_cons sep c s :
  Js.split sep (String c s)
  = if Ascii.eqb c sep then "" :: Js.split sep s
    else match Js.split sep s with
         | [] => [String c ""]
         | t :: ts => String c t :: ts
         end.
Proof. reflexivity. Qed.

Lemma split_no_sep sep s t : t ∈ Js.split sep s → ¬ Spec.hasChar sep t.
Proof.
  revert t. induction s as [|c s IH]; intros t.
  - intros ->%list_elem_of_singleton. apply hasChar_nil.
  - rewrite split_cons. destruct (Ascii.eqb c sep) eqn:Hc.
    + intros [->|Ht]%elem_of_cons; [apply hasChar_nil|by apply IH].
    + apply Ascii.eqb_neq in Hc.
      destruct (Js.split sep s) as [|u us] eqn:Hs.
      * intros ->%list_elem_of_singleton [->|?%hasChar_nil]%hasChar_cons; done.
      * intros [->|Ht]%elem_of_cons.
        -- intros [->|Hu]%hasChar_cons; [done|].
           apply (IH u); [by left|done].
        -- apply IH. by right.
Qed.

Lemma split_app sep a b :
  Js.split sep (a +:+ String sep b) = (Js.split sep a ++ Js.split sep b)%list.
Proof.
  induction a as [|c a IH].
  - rewrite JsFacts.append_nil_l, split_cons. by rewrite Ascii.eqb_refl.
  - rewrite JsFacts.append_cons, !split_cons, IH.
    destruct (Ascii.eqb c sep); [done|].
    destruct (Js.split sep a) as [|t ts] eqn:Ha; [|done].
    by destruct a; simpl in Ha; repeat case_match.
Qed.

Lemma split_nonempty sep s : Js.split sep s ≠ [].
Proof.
  destruct s as [|c s]; [done|]. rewrite split_cons.
  destruct (Ascii.eqb c sep); [done|]. by destruct (Js.split sep s).
Qed.

Lemma list_None_empty : Util.list None = Util.list (Some "").
Proof. reflexivity. Qed.

(** X1.  Every item [list] returns is non-empty, is left as it is by [trim]
    and contains no bar. *)
Theorem list_items_clean (cell : option string) (t : string) :
  t ∈ Util.list cell →
  t ≠ "" ∧ Js.trim t = t ∧ ¬ Spec.hasChar "|" t.
Proof.
  unfold Util.list. intros [Hne Ht]%list_elem_of_filter.
  apply list_elem_of_fmap in Ht as (u & -> & Hu).
  split_and!; [done|apply trim_idemp|].
  intros Hbar%trim_chars. by apply (split_no_sep _ _ _ Hu).
Qed.

(** X2.  A cell made of two cells joined by a bar lists the items of the
    first followed by the items of the second. *)
Theorem list_bar (a b : string) :
  Util.list (Some (a +:+ "|" +:+ b))
  = (Util.list (Some a) ++ Util.list (Some b))%list.
Proof.
  unfold Util.list.
  assert (Hor : ∀ s, Js.split "|" (Js.or_else (Some s) "") = Js.split "|" s)
    by (intros s; by rewrite JsFacts.or_else_empty).
  rewrite !Hor.
  change ("|" +:+ b) with (String "|" b).
  by rewrite split_app, fmap_app, filter_app.
Qed.

(** *** Search over the five text fields *)

Lemma append_assoc s t u : (s +:+ t) +:+ u = s +:+ (t +:+ u).
Proof.
  induction s as [|c s IH]; [done|]. by rewrite !JsFacts.append_cons, IH.
Qed.

Lemma append_nil_r s : s +:+ "" = s.
Proof.
  induction s as [|c s IH]; [done|]. by rewrite JsFacts.append_cons, IH.
Qed.

Lemma isSubstring_trans a b c :
  Spec.isSubstring a b → Spec.isSubstring b c → Spec.isSubstring a c.
Proof.
  intros (p1 & s1 & ->) (p2 & s2 & ->). exists (p2 +:+ p1), (s1 +:+ s2).
  by rewrite !append_assoc.
Qed.

Lemma okSearch_true_iff st r :
  okSearch st r = true ↔ Spec.isSubstring (Js.toLowerCase (query st)) (hay r).
Proof.
  unfold okSearch, q, Util.ci. rewrite JsFacts.or_else_empty.
  destruct (Js.toLowerCase (query st)) as [|c s] eqn:Hq.
  - split; [|done]. intros _. by exists "", (hay r).
  - apply JsFacts.includes_iff.
Qed.

Lemma hay_cells r :
  hay r = Util.ci (Some (title r)) +:+ " " +:+ Util.ci (description r) +:+ " "
          +:+ Util.ci (section r) +:+ " " +:+ Util.ci (stage r) +:+ " "
          +:+ Util.ci (tags r).
Proof. reflexivity. Qed.

Lemma field_in_hay r (f : option string) :
  f ∈ Spec.cells r → Spec.isSubstring (Util.ci f) (hay r).
Proof.
  rewrite hay_cells. unfold Spec.cells.
  set (t := Util.ci (Some (title r))). set (d := Util.ci (description r)).
  set (s := Util.ci (section r)). set (g := Util.ci (stage r)).
  set (a := Util.ci (tags r)).
  rewrite !elem_of_cons, elem_of_nil.
  intros [->|[->|[->|[->|[->|[]]]]]].
  - by exists "", (" " +:+ d +:+ " " +:+ s +:+ " " +:+ g +:+ " " +:+ a).
  - exists (t +:+ " "), (" " +:+ s +:+ " " +:+ g +:+ " " +:+ a).
    by rewrite !append_assoc.
  - exists (t +:+ " " +:+ d +:+ " "), (" " +:+ g +:+ " " +:+ a).
    by rewrite !append_assoc.
  - exists (t +:+ " " +:+ d +:+ " " +:+ s +:+ " "), (" " +:+ a).
    by rewrite !append_assoc.
  - exists (t +:+ " " +:+ d +:+ " " +:+ s +:+ " " +:+ g +:+ " "), "".
    by rewrite !append_assoc, append_nil_r.
Qed.

Lemma prefix_before_space q post a b :
  ¬ Spec.hasChar " " q → q +:+ post = a +:+ String " " b →
  ∃ post', a = q +:+ post'.
Proof.
  revert a. induction q as [|c q IH]; intros a Hsp Heq; [by exists a|].
  destruct a as [|d a].
  - rewrite JsFacts.append_nil_l, JsFacts.append_cons in Heq.
    injection Heq as -> _. destruct Hsp. apply hasChar_cons. by left.
  - rewrite !JsFacts.append_cons in Heq. injection Heq as -> Heq.
    destruct (IH a) as [post' ->]; [|done|by exists post'].
    intros Hq. apply Hsp, hasChar_cons. by right.
Qed.

Lemma isSubstring_sep q a b :
  ¬ Spec.hasChar " " q → Spec.isSubstring q (a +:+ String " " b) →
  Spec.isSubstring q a ∨ Spec.isSubstring q b.
Proof.
  intros Hsp (pre & post & Heq). revert a Heq.
  induction pre as [|c pre IH]; intros a Heq.
  - left. rewrite JsFacts.append_nil_l in Heq. symmetry in Heq.
    destruct (prefix_before_space q post a b Hsp Heq) as [post' ->].
    by exists "", post'.
  - destruct a as [|d a].
    + right. rewrite JsFacts.append_nil_l, JsFacts.append_cons in Heq.
      injection Heq as _ ->. by exists pre, post.
    + rewrite !JsFacts.append_cons in Heq. injection Heq as -> Heq.
      destruct (IH a Heq) as [(p & s & ->)|Hb]; [left|by right].
      by exists (String c p), s.
Qed.

Lemma hay_field r q :
  ¬ Spec.hasChar " " q → Spec.isSubstring q (hay r) →
  ∃ f, f ∈ Spec.cells r ∧ Spec.isSubstring q (Util.ci f).
Proof.
  intros Hsp. rewrite hay_cells. unfold Spec.cells.
  change (" " +:+ ?x) with (String " " x).
  intros [H|[H|[H|[H|H]%isSubstring_sep]%isSubstring_sep]%isSubstring_sep]
    %isSubstring_sep; try done; eexists; (split; [|exact H]);
    rewrite !elem_of_cons; tauto.
Qed.

(** X3.  A query whose lower-casing occurs inside the lower-cased title,
    description, section, stage or tags cell of a row matches the row; and
    a query whose lower-casing contains no space matches in no other way:
    it never matches across two cells. *)
Theorem okSearch_field_match (st : FilterState) (r : Row) :
  (∀ f, f ∈ Spec.cells r →
        Spec.isSubstring (Js.toLowerCase (query st)) (Util.ci f) →
        okSearch st r = true) ∧
  (¬ Spec.hasChar " " (Js.toLowerCase (query st)) →
   okSearch st r = true →
   ∃ f, f ∈ Spec.cells r ∧
        Spec.isSubstring (Js.toLowerCase (query st)) (Util.ci f)).
Proof.
  split.
  - intros f Hf Hsub. apply okSearch_true_iff.
    eapply isSubstring_trans; [exact Hsub|by apply field_in_hay].
  - intros Hsp Hok%okSearch_true_iff. by apply hay_field.
Qed.

(** *** Chip toggling *)

Lemma filter_ne_absent (arr : list string) v :
  v ∉ arr → filter (λ x, x ≠ v) arr = arr.
Proof.
  intros Hv. apply filter_all, Forall_forall. by intros x Hx ->.
Qed.

Lemma filter_ne_not_elem (arr : list string) v : v ∉ filter (λ x, x ≠ v) arr.
Proof. by intros [? _]%list_elem_of_filter. Qed.

Lemma filter_ne_move (arr : list string) v :
  NoDup arr → v ∈ arr → filter (λ x, x ≠ v) arr ++ [v] ≡ₚ arr.
Proof.
  induction arr as [|a arr IH]; intros Hnd Hv; [by apply elem_of_nil in Hv|].
  apply NoDup_cons in Hnd as [Ha Hnd]. rewrite filter_cons.
  destruct (decide (a ≠ v)) as [Hne|Heq].
  - apply elem_of_cons in Hv as [->|Hv]; [done|].
    simpl. by rewrite IH.
  - assert (a = v) as -> by (by destruct (decide (a = v))).
    rewrite filter_ne_absent by done. symmetry. apply Permutation_cons_append.
Qed.

(** X4.  Toggling a value flips the membership of that value only, and keeps
    a duplicate-free array duplicate-free. *)
Theorem toggle_elem (arr : list string) (v x : string) :
  (x ∈ toggle arr v ↔ (x ≠ v ∧ x ∈ arr) ∨ (x = v ∧ v ∉ arr)) ∧
  (NoDup arr → NoDup (toggle arr v)).
Proof.
  unfold toggle. destruct (bool_decide (v ∈ arr)) eqn:Hv.
  - apply bool_decide_eq_true in Hv. split.
    + rewrite list_elem_of_filter. split; [by left|].
      by intros [?|[_ ?]].
    + by apply NoDup_filter.
  - apply bool_decide_eq_false in Hv. split.
    + rewrite elem_of_app, list_elem_of_singleton. split.
      * intros [Hx| ->]; [left|by right]. split; [|done]. by intros ->.
      * intros [[_ ?]|[-> _]]; [by left|by right].
    + intros Hnd. apply NoDup_app. split_and!; [done| |apply NoDup_singleton].
      by intros y Hy ->%list_elem_of_singleton.
Qed.

(** X5.  Toggling the same value twice gives the array back when the value
    was absent; when it was present the value moves to the end, so a
    duplicate-free array comes back up to order. *)
Theorem toggle_twice (arr : list string) (v : string) :
  (v ∉ arr → toggle (toggle arr v) v = arr) ∧
  (v ∈ arr →
     toggle (toggle arr v) v = (filter (λ x, x ≠ v) arr ++ [v])%list) ∧
  (NoDup arr → toggle (toggle arr v) v ≡ₚ arr).
Proof.
  assert (Habs : v ∉ arr → toggle (toggle arr v) v = arr).
  { intros Hv. unfold toggle at 2. rewrite bool_decide_eq_false_2 by done.
    unfold toggle. rewrite bool_decide_eq_true_2 by (apply elem_of_app; right; by left).
    rewrite filter_app, filter_ne_absent by done.
    rewrite filter_cons_False by (by intros ?). by rewrite filter_nil, app_nil_r. }
  assert (Hpres : v ∈ arr →
            toggle (toggle arr v) v = (filter (λ x, x ≠ v) arr ++ [v])%list).
  { intros Hv. unfold toggle at 2. rewrite bool_decide_eq_true_2 by done.
    unfold toggle. by rewrite bool_decide_eq_false_2 by apply filter_ne_not_elem. }
  split_and!; [done..|].
  intros Hnd. destruct (decide (v ∈ arr)) as [Hv|Hv].
  - rewrite Hpres by done. by apply filter_ne_move.
  - by rewrite Habs.
Qed.

(** *** Section and tag chips *)

Lemma sorted_dedup_spec (l : list string) :
  Sorted String.le (merge_sort String.le (remove_dups l)) ∧
  NoDup (merge_sort String.le (remove_dups l)) ∧
  ∀ x, x ∈ merge_sort String.le (remove_dups l) ↔ x ∈ l.
Proof.
  split_and!.
  - apply Sorted_merge_sort, _.
  - rewrite merge_sort_Permutation. apply NoDup_remove_dups.
  - intros x. rewrite merge_sort_Permutation. apply elem_of_remove_dups.
Qed.

(** X6.  The section chips are sorted, pairwise distinct, and are exactly the
    sections of the rows, a row without section counting as "General". *)
Theorem allSections_spec (rawRows : list Row) :
  Sorted String.le (allSections rawRows) ∧
  NoDup (allSections rawRows) ∧
  ∀ x, x ∈ allSections rawRows ↔
       ∃ r, r ∈ rawRows ∧ Js.or_else (section r) "General" = x.
Proof.
  unfold allSections.
  destruct (sorted_dedup_spec
              ((λ r, Js.or_else (section r) "General") <$> rawRows))
    as (Hs & Hn & He).
  split_and!; [done..|]. intros x. rewrite He, list_elem_of_fmap.
  split; intros (r & H1 & H2); exists r; by split.
Qed.

(** X7.  The tag chips are sorted, pairwise distinct, and are exactly the
    items of the tag cells of the rows. *)
Theorem allTags_spec (rawRows : list Row) :
  Sorted String.le (allTags rawRows) ∧
  NoDup (allTags rawRows) ∧
  ∀ t, t ∈ allTags rawRows ↔ ∃ r, r ∈ rawRows ∧ t ∈ Util.list (tags r).
Proof.
  unfold allTags.
  destruct (sorted_dedup_spec (rawRows ≫= (λ r, Util.list (tags r))))
    as (Hs & Hn & He).
  split_and!; [done..|]. intros t. rewrite He, list_elem_of_bind.
  split; intros (r & H1 & H2); exists r; by split.
Qed.

Lemma onChange_section rawRows r b :
  (λ rr, Js.or_else (section rr) "General") <$> onChange rawRows r b
  = (λ rr, Js.or_else (section rr) "General") <$> rawRows.
Proof.
  unfold onChange. rewrite <- list_fmap_compose. apply list_fmap_ext.
  intros _ rr _. simpl. by destruct (bool_decide (id rr = id r)).
Qed.

Lemma onChange_tags rawRows r b :
  onChange rawRows r b ≫= (λ rr, Util.list (tags rr))
  = rawRows ≫= (λ rr, Util.list (tags rr)).
Proof.
  unfold onChange. rewrite list_fmap_bind. apply list_bind_ext; [|done].
  intros rr. simpl. by destruct (bool_decide (id rr = id r)).
Qed.

(** X8.  Ticking or unticking a completion checkbox changes neither the
    section chips nor the tag chips. *)
Theorem chips_stable (rawRows : list Row) (r : Row) (checked : bool) :
  allSections (onChange rawRows r checked) = allSections rawRows ∧
  allTags (onChange rawRows r checked) = allTags rawRows.
Proof.
  unfold allSections, allTags. by rewrite onChange_section, onChange_tags.
Qed.

Lemma okTags_single st t r :
  selectedTags st = [t] → okTags st r = true ↔ t ∈ Util.list (tags r).
Proof.
  intros Hsel. unfold okTags. rewrite Hsel, existsb_exists. split.
  - intros (u & Hu & Hin). apply bool_decide_eq_true in Hin.
    apply list_elem_of_singleton in Hin as ->. by apply list_elem_of_In.
  - intros Ht. exists t. split; [by apply list_elem_of_In|].
    apply bool_decide_eq_true. by left.
Qed.

(** X9.  With a single tag selected, the tag predicate keeps exactly the
    rows whose tag cell lists that tag; a tag shown as a chip keeps at least
    one row, and a row without tags is rejected. *)
Theorem tag_chip_selects (st : FilterState) (rawRows : list Row) (t : string) :
  selectedTags st = [t] →
  (∀ r, okTags st r = true ↔ t ∈ Util.list (tags r)) ∧
  (t ∈ allTags rawRows → ∃ r, r ∈ rawRows ∧ okTags st r = true) ∧
  (∀ r, Js.truthy (tags r) = false → okTags st r = false).
Proof.
  intros Hsel. split_and!.
  - intros r. by apply okTags_single.
  - unfold allTags. rewrite merge_sort_Permutation, elem_of_remove_dups.
    intros (r & Ht & Hr)%list_elem_of_bind. exists r. split; [done|].
    by apply (okTags_single st t r Hsel).
  - intros r Habs. apply not_true_is_false.
    intros Hok%(okTags_single st t r Hsel). unfold Util.list in Hok.
    rewrite (JsFacts.or_else_None_iff _ _ Habs) in Hok.
    by apply elem_of_nil in Hok.
Qed.

(** *** Badge and reset *)

(** X10.  After a reset, and in the start-up filter state, the filter badge
    counts no active filter. *)
Theorem reset_clears_badge (rawRows : list Row) :
  activeFilterCount (resetFilters rawRows) rawRows = 0 ∧
  activeFilterCount initialFilters rawRows = 0.
Proof.
  split; [|reflexivity]. unfold activeFilterCount, resetFilters. simpl.
  rewrite (bool_decide_eq_false_2 (_ ≠ _)) by (by intros H; apply H).
  by rewrite andb_false_r.
Qed.

Lemma okSearch_empty st r : query st = "" → okSearch st r = true.
Proof.
  intros Hq. unfold okSearch, q, Util.ci.
  by rewrite Hq, JsFacts.or_else_empty, Js.toLowerCase_empty.
Qed.

Lemma okAll_reset rawRows r :
  r ∈ rawRows →
  okAll (resetFilters rawRows) r = true ↔ Js.or_else (stage r) "" ∈ STAGE_ORDER.
Proof.
  intros Hr. unfold okAll. rewrite okSearch_empty by done.
  unfold okStatus, okStage, okSection, okTags.
  simpl. rewrite !andb_true_r.
  rewrite (bool_decide_eq_true_2 (_ ∈ allSections _))
    by by apply allSections_elem.
  rewrite andb_true_r. apply bool_decide_eq_true.
Qed.

(** X11.  After a reset the visible rows are exactly the rows whose stage is
    one of the four enum stages, in their original order. *)
Theorem reset_shows_enum_stages (rawRows : list Row) :
  visibleRows (resetFilters rawRows) rawRows
  = filter (λ r, Js.or_else (stage r) "" ∈ STAGE_ORDER) rawRows.
Proof.
  unfold visibleRows. simpl. apply filter_ext_in. intros r Hr.
  rewrite Is_true_true. by apply okAll_reset.
Qed.

(** *** Persisted statuses *)

Lemma statusMap_snoc rows r :
  statusMap (rows ++ [r])
  = if bool_decide (id r = "__proto__") then statusMap rows
    else <[id r := Js.or_else (status r) "todo"]> (statusMap rows).
Proof. unfold statusMap. by rewrite foldl_snoc. Qed.

Lemma or_else_nonempty s d : d ≠ "" → Js.or_else s d ≠ "".
Proof. by destruct s as [[|??]|]. Qed.

(** X13.  The object the persist effect writes holds, for an id other than
    "__proto__", the status of the last row with that id, "todo" standing
    for a missing or empty status, and nothing for an id no row has; it
    never holds an entry for "__proto__" and never an empty status. *)
Theorem statusMap_lookup (rawRows : list Row) (i : string) :
  statusMap rawRows !! i
  = (if decide (i = "__proto__") then None
     else (λ r, Js.or_else (status r) "todo")
            <$> last (filter (λ r, id r = i) rawRows)) ∧
  (∀ s, statusMap rawRows !! i = Some s → s ≠ "").
Proof.
  assert (Hlook : statusMap rawRows !! i
            = (if decide (i = "__proto__") then None
               else (λ r, Js.or_else (status r) "todo")
                      <$> last (filter (λ r, id r = i) rawRows))).
  { induction rawRows as [|r rows IH] using rev_ind.
    - by destruct (decide (i = "__proto__")).
    - rewrite statusMap_snoc, filter_app, filter_cons, filter_nil.
      destruct (bool_decide (id r = "__proto__")) eqn:Hp.
      + apply bool_decide_eq_true in Hp. rewrite IH.
        destruct (decide (i = "__proto__")) as [Hi|Hi]; [done|].
        rewrite decide_False by congruence. by rewrite app_nil_r.
      + apply bool_decide_eq_false in Hp. rewrite lookup_insert.
        destruct (decide (id r = i)) as [Hri|Hri].
        * rewrite decide_False by congruence. by rewrite last_snoc.
        * by rewrite IH, app_nil_r. }
  split; [done|]. intros s. rewrite Hlook.
  destruct (decide (i = "__proto__")); [done|].
  destruct (last _) as [r|]; [|done]. intros [= <-].
  by apply or_else_nonempty.
Qed.

Lemma statusMap_unique (rawRows : list Row) r :
  NoDup (id <$> rawRows) → r ∈ rawRows → id r ≠ "__proto__" →
  statusMap rawRows !! id r = Some (Js.or_else (status r) "todo").
Proof.
  induction rawRows as [|a rows IH] using rev_ind; intros Hnd Hr Hp;
    [by apply elem_of_nil in Hr|].
  rewrite fmap_app in Hnd. apply NoDup_app in Hnd as (Hnd & Hdisj & _).
  rewrite statusMap_snoc.
  apply elem_of_app in Hr as [Hr| ->%list_elem_of_singleton].
  - assert (Hne : id a ≠ id r).
    { intros Heq. apply (Hdisj (id r)); [by apply list_elem_of_fmap_2|].
      rewrite <- Heq. by left. }
    destruct (bool_decide (id a = "__proto__")); [by apply IH|].
    rewrite lookup_insert, decide_False by done. by apply IH.
  - rewrite bool_decide_eq_false_2 by done.
    by rewrite lookup_insert, decide_True.
Qed.

Lemma truthy_or_else_todo s : Js.truthy (Some (Js.or_else s "todo")) = true.
Proof. by destruct s as [[|??]|]. Qed.

Lemma withStatus_agree r r' s :
  Spec.agreeOffStatus r r' → withStatus r s = withStatus r' s.
Proof. unfold Spec.agreeOffStatus, withStatus. by intros [= -> -> -> -> -> -> -> ->]. Qed.

Lemma agree_id r r' : Spec.agreeOffStatus r r' → id r = id r'.
Proof. unfold Spec.agreeOffStatus, withStatus. by intros [= -> _]. Qed.

Lemma withStatus_own r s : status r = Some s → withStatus r s = r.
Proof. destruct r. simpl. by intros ->. Qed.

Lemma mergeSaved_agree saved r : Spec.agreeOffStatus r (mergeSaved saved r).
Proof.
  unfold mergeSaved. destruct (saved !! id r) as [s|]; [|done].
  by destruct (Js.truthy (Some s)).
Qed.

Lemma persistedStatus_sameView r : Spec.sameView r (Spec.persistedStatus r).
Proof.
  unfold Spec.sameView, Spec.persistedStatus. split_and!; try done.
  unfold isDone. simpl. destruct (status r) as [[|c s]|]; try done.
Qed.

Lemma reload_rows (data rows : list Row) (M : gmap string string) :
  Forall2 Spec.agreeOffStatus (normalise <$> data) rows →
  (∀ r, r ∈ rows → M !! id r = Some (Js.or_else (status r) "todo")) →
  loadRows M data = Spec.persistedStatus <$> rows.
Proof.
  unfold loadRows. remember (normalise <$> data) as nd eqn:Hnd. clear Hnd.
  induction 1 as [|n r nd rows Hag _ IH]; intros HM; [done|].
  rewrite !fmap_cons, IH by (intros x Hx; apply HM; by right).
  f_equal. unfold mergeSaved, Spec.persistedStatus.
  rewrite (agree_id _ _ Hag), HM by by left.
  rewrite truthy_or_else_todo. by apply withStatus_agree.
Qed.

(** X14.  Rows with pairwise distinct ids, none of them "__proto__", that
    differ from the normalised CSV rows at most in their status survive a
    reload: loading the same CSV over the object the persist effect wrote
    for them gives the same rows with the persisted status words, hence the
    same done set, actionable set, nodes and edges. *)
Theorem reload_restores (st : FilterState) (data rows : list Row) :
  NoDup (id <$> rows) →
  "__proto__" ∉ id <$> rows →
  Forall2 Spec.agreeOffStatus (normalise <$> data) rows →
  let again := loadRows (statusMap rows) data in
  again = Spec.persistedStatus <$> rows ∧
  completed again = completed rows ∧
  actionable again = actionable rows ∧
  nodesBuilt st again = nodesBuilt st rows ∧
  edgesBuilt st again = edgesBuilt st rows.
Proof.
  intros Hnd Hproto Hag again.
  assert (Heq : again = Spec.persistedStatus <$> rows).
  { apply reload_rows; [done|]. intros r Hr. apply statusMap_unique; [done..|].
    intros Hp. apply Hproto. rewrite <- Hp. by apply list_elem_of_fmap_2. }
  rewrite Heq. split_and!; [done|..].
  - apply same_completed, persistedStatus_sameView.
  - apply same_actionable, persistedStatus_sameView.
  - apply same_nodesBuilt, persistedStatus_sameView.
  - apply same_edgesBuilt, persistedStatus_sameView.
Qed.

(** *** The defaulting effect at rest *)

Lemma commit_of_settled n c : Spec.settled c → commit n c = c.
Proof. intros Hs. destruct n; [done|]. simpl. by rewrite decide_True. Qed.

Lemma commit3_settled c : Spec.settled (commit 3 c).
Proof.
  destruct c as [rows ref [qy sf stg secs tgs ona] deps].
  unfold Spec.settled. cbn [commit].
  destruct (decide (_ = _)) as [He|Hne]; [done|].
  unfold defaultSections, effectDeps at 3. cbn [rawRows filters selectedSections rowsRef].
  destruct rows as [|r rows].
  { simpl. by rewrite decide_True. }
  destruct secs as [|sec secs].
  - cbn [length Nat.eqb negb andb]. unfold setSelectedSections. simpl.
    pose proof (allSections_nonempty (r :: rows)) as Hall.
    destruct (allSections (r :: rows)) as [|a all'] eqn:Hall'; [by destruct Hall|].
    rewrite decide_False by (intros [=]).
    unfold defaultSections. simpl. by rewrite decide_True.
  - simpl. by rewrite decide_True.
Qed.

Lemma commit_plus n m c : commit (n + m) c = commit m (commit n c).
Proof.
  revert c. induction n as [|n IH]; intros c; [done|].
  cbn [Nat.add commit]. destruct (decide (_ = _)) as [He|Hne].
  - by rewrite commit_of_settled.
  - apply IH.
Qed.

(** X15.  From any state the defaulting effect comes to rest within three
    renders, and further renders change nothing. *)
Theorem effect_settles (c : State) :
  Spec.settled (commit 3 c) ∧ ∀ n, commit (3 + n) c = commit 3 c.
Proof.
  split; [apply commit3_settled|]. intros n.
  rewrite commit_plus. apply commit_of_settled, commit3_settled.
Qed.

Lemma defaultSections_some c : Spec.someSectionSelected (defaultSections c).
Proof.
  unfold Spec.someSectionSelected, defaultSections.
  destruct (rawRows c) as [|r rows] eqn:Hrows; simpl.
  - by rewrite Hrows.
  - destruct (selectedSections (filters c)) as [|s secs] eqn:Hsel; simpl.
    + rewrite Hrows. intros _. by apply allSections_nonempty.
    + by rewrite Hsel.
Qed.

Lemma commit_keeps n c :
  Spec.someSectionSelected c → Spec.someSectionSelected (commit n c).
Proof.
  revert c. induction n as [|n IH]; intros c Hc; [done|]. simpl.
  destruct (decide (_ = _)); [done|]. apply IH, defaultSections_some.
Qed.

Lemma commit_repairs n c :
  Spec.someSectionSelected c ∨ ¬ Spec.settled c →
  Spec.someSectionSelected (commit (S n) c).
Proof.
  intros Hc. simpl. destruct (decide (_ = _)) as [He|Hne].
  - by destruct Hc.
  - apply commit_keeps, defaultSections_some.
Qed.

Lemma handle_some c ev :
  Spec.settled c → Spec.someSectionSelected c →
  Spec.someSectionSelected (handle ev c) ∨ ¬ Spec.settled (handle ev c).
Proof.
  unfold Spec.settled, Spec.someSectionSelected, effectDeps.
  destruct c as [rows ref [qy sf stg secs tgs ona] deps]. simpl.
  intros -> Hsome.
  assert (Hsel : ∀ secs', Spec.someSectionSelected
            (setSelectedSections secs'
               (mkState rows ref (mkFilterState qy sf stg secs tgs ona)
                  (Some (ref, length secs))))
          ∨ ¬ Spec.settled
            (setSelectedSections secs'
               (mkState rows ref (mkFilterState qy sf stg secs tgs ona)
                  (Some (ref, length secs))))).
  { intros secs'. unfold Spec.someSectionSelected, Spec.settled, effectDeps.
    simpl. destruct secs' as [|s' secs']; [|by left].
    destruct rows as [|r rows]; [by left|]. right.
    destruct secs; [by destruct Hsome|]. by intros [=]. }
  destruct ev as [saved data|r| | |sec]; simpl; try apply Hsel.
  - right. intros [= Href]. lia.
  - right. intros [= Href]. lia.
Qed.

(** X16.  After any sequence of loads, checkbox clicks and section button or
    chip clicks the effect is at rest and, if rows are loaded, at least one
    section is selected. *)
Theorem sections_never_empty (evs : list Event) :
  Spec.settled (run evs) ∧ Spec.someSectionSelected (run evs).
Proof.
  induction evs as [|ev evs [Hs Hp]] using rev_ind.
  - split; [apply commit3_settled|]. by intros Hrows.
  - unfold run in *. rewrite foldl_snoc. unfold dispatch at 1 3.
    split; [apply commit3_settled|].
    by apply commit_repairs, handle_some.
Qed.

(** *** Visible rows as one filter *)

Lemma visibleRows_filter st rawRows :
  visibleRows st rawRows
  = filter (λ r, okAll st r = true ∧
                 (onlyNextActionable st = true → id r ∈ actionable rawRows))
      rawRows.
Proof.
  unfold visibleRows. destruct (onlyNextActionable st).
  - rewrite list_filter_filter. apply list_filter_iff. intros r.
    rewrite Is_true_true. tauto.
  - apply list_filter_iff. intros r. rewrite Is_true_true.
    split; [by intros ?; split|by intros [? _]].
Qed.

Lemma filter_split {A} (P Q1 Q2 : A → Prop)
    `{∀ x, Decision (P x)} `{∀ x, Decision (Q1 x)} `{∀ x, Decision (Q2 x)}
    (l : list A) :
  (∀ x, P x ↔ Q1 x ∨ Q2 x) → (∀ x, Q1 x → Q2 x → False) →
  filter P l ≡ₚ filter Q1 l ++ filter Q2 l.
Proof.
  intros Hcover Hdisj. induction l as [|a l IH]; [done|].
  rewrite !filter_cons. destruct (Hcover a) as [Hto Hfrom].
  destruct (decide (P a)) as [Hp|Hp], (decide (Q1 a)) as [Ha1|Ha1],
    (decide (Q2 a)) as [Ha2|Ha2]; try (exfalso; tauto); try (exfalso; by eauto).
  - simpl. by rewrite IH.
  - rewrite IH. apply Permutation_middle.
  - done.
Qed.

Lemma okAll_withStatusFilter st sf r :
  okAll (Spec.withStatusFilter st sf) r
  = okStatus (Spec.withStatusFilter st sf) r
    && okAll (Spec.withStatusFilter st all) r.
Proof. unfold okAll. by destruct (okStatus _ r). Qed.

(** X17.  For fixed other filters, the rows shown under "To-do" together
    with those shown under "Done" are the rows shown under "All". *)
Theorem status_filter_partition (st : FilterState) (rawRows : list Row) :
  visibleRows (Spec.withStatusFilter st all) rawRows
  ≡ₚ visibleRows (Spec.withStatusFilter st todo) rawRows
     ++ visibleRows (Spec.withStatusFilter st done) rawRows.
Proof.
  rewrite !visibleRows_filter. apply filter_split.
  - intros r. rewrite (okAll_withStatusFilter st todo),
      (okAll_withStatusFilter st done). unfold okStatus. simpl.
    destruct (isDone r); simpl; intuition discriminate.
  - intros r. rewrite (okAll_withStatusFilter st todo),
      (okAll_withStatusFilter st done). unfold okStatus. simpl.
    destruct (isDone r); simpl; intros [? _] [? _]; done.
Qed.

(** X18.  With pairwise distinct ids, the "Done" selector combined with the
    actionable-only flag shows no row. *)
Theorem done_actionable_empty (st : FilterState) (rawRows : list Row) :
  NoDup (id <$> rawRows) →
  statusFilter st = done → onlyNextActionable st = true →
  visibleRows st rawRows = [].
Proof.
  intros Hnd Hsf Hflag.
  destruct (visibleRows st rawRows) as [|r vis] eqn:Hvis; [done|].
  assert (Hr : r ∈ visibleRows st rawRows) by (rewrite Hvis; by left).
  apply elem_of_visibleRows in Hr as (Hr & Hok & Hact).
  specialize (Hact Hflag). apply (actionable_row _ _ Hnd Hr) in Hact.
  unfold okAll, okStatus in Hok. rewrite Hsf in Hok.
  unfold isActionable in Hact. by destruct (isDone r).
Qed.

Lemma filter_sublist_mono {A} (P Q : A → Prop)
    `{∀ x, Decision (P x)} `{∀ x, Decision (Q x)} (l : list A) :
  (∀ x, P x → Q x) → filter P l `sublist_of` filter Q l.
Proof.
  intros Himp. induction l as [|a l IH]; [done|]. rewrite !filter_cons.
  destruct (decide (P a)) as [Hp|Hp], (decide (Q a)) as [Hq|Hq].
  - by apply sublist_skip.
  - by destruct Hq; apply Himp.
  - by apply sublist_cons.
  - done.
Qed.

(** X19.  Ticking further stage or section chips never hides a row: with the
    other filters equal, a larger stage and section selection shows a
    super-list of the rows. *)
Theorem more_chips_more_rows (st st' : FilterState) (rawRows : list Row) :
  query st = query st' → statusFilter st = statusFilter st' →
  selectedTags st = selectedTags st' →
  onlyNextActionable st = onlyNextActionable st' →
  selectedStages st ⊆ selectedStages st' →
  selectedSections st ⊆ selectedSections st' →
  visibleRows st rawRows `sublist_of` visibleRows st' rawRows.
Proof.
  intros Hq Hsf Htg Hfl Hstg Hsec. rewrite !visibleRows_filter.
  apply filter_sublist_mono. intros r [Hok Hact]. split; [|by rewrite <- Hfl].
  unfold okAll, okStatus, okStage, okSection, okTags, okSearch, q in *.
  rewrite <- Hq, <- Hsf, <- Htg.
  apply andb_true_iff in Hok as [Hok Hsearch].
  apply andb_true_iff in Hok as [Hok Htags].
  apply andb_true_iff in Hok as [Hok Hsection].
  apply andb_true_iff in Hok as [Hstatus Hstage].
  rewrite Hstatus, Htags, Hsearch.
  apply bool_decide_eq_true in Hstage, Hsection.
  rewrite !bool_decide_eq_true_2; [done|by apply Hsec|by apply Hstg].
Qed.

(** *** Distinct nodes and edges *)

Lemma edgesOf_NoDup V r : NoDup (depsOf r) → NoDup (edgesOf V r).
Proof.
  intros Hnd. unfold edgesOf. apply NoDup_fmap_2_strong.
  - intros ?? _ _. apply mkEdge_inj.
  - by apply NoDup_filter.
Qed.

Lemma edgesOf_target V r e : e ∈ edgesOf V r → Edge.target e = id r.
Proof. by intros (d & _ & _ & ->)%elem_of_edgesOf. Qed.

(** X20.  With pairwise distinct row ids the node ids are pairwise distinct
    and there are at most as many nodes as rows; if moreover no visible row
    lists a dependency id twice, the edges are pairwise distinct. *)
Theorem nodes_edges_distinct (st : FilterState) (rawRows : list Row) :
  NoDup (id <$> rawRows) →
  NoDup (Node.id <$> nodesBuilt st rawRows) ∧
  (length (nodesBuilt st rawRows) ≤ length rawRows)%nat ∧
  ((∀ r, r ∈ visibleRows st rawRows → NoDup (depsOf r)) →
   NoDup (edgesBuilt st rawRows)).
Proof.
  intros Hnd.
  pose proof (visibleRows_NoDup_ids st rawRows Hnd) as Hvis.
  split_and!.
  - by rewrite nodesBuilt_ids.
  - unfold nodesBuilt. rewrite length_fmap.
    apply sublist_length, visibleRows_sublist.
  - intros Hdeps. unfold edgesBuilt. apply NoDup_bind.
    + intros r1 r2 e Hr1 Hr2 He1 He2.
      apply (NoDup_fmap_eq id (visibleRows st rawRows)); [done..|].
      by rewrite <- (edgesOf_target _ _ _ He1), <- (edgesOf_target _ _ _ He2).
    + intros r Hr. by apply edgesOf_NoDup, Hdeps.
    + by eapply NoDup_fmap_1.
Qed.

(** *** Completion and actionability *)

Lemma onChange_elem rawRows r b rr :
  rr ∈ rawRows → id rr ≠ id r → rr ∈ onChange rawRows r b.
Proof.
  intros Hrr Hne. unfold onChange. apply list_elem_of_fmap. exists rr.
  split; [|done]. by rewrite bool_decide_eq_false_2.
Qed.

Lemma onChange_elem_inv rawRows r b rr' :
  rr' ∈ onChange rawRows r b →
  (rr' ∈ rawRows ∧ id rr' ≠ id r) ∨
  (∃ rr, rr ∈ rawRows ∧ id rr = id r ∧
         rr' = withStatus rr (if b then "done" else "todo")).
Proof.
  unfold onChange. intros (rr & -> & Hrr)%list_elem_of_fmap.
  destruct (bool_decide (id rr = id r)) eqn:Hid.
  - right. exists rr. by apply bool_decide_eq_true in Hid.
  - left. by apply bool_decide_eq_false in Hid.
Qed.

Lemma completed_grows rawRows r i :
  i ∈ completed rawRows → i ∈ completed (onChange rawRows r true).
Proof.
  intros (rr & Hrr & <- & Hdone)%elem_of_completed.
  apply elem_of_completed. destruct (decide (id rr = id r)) as [Hid|Hid].
  - exists (withStatus rr "done"). split_and!; [|done..].
    unfold onChange. apply list_elem_of_fmap. exists rr.
    by rewrite bool_decide_eq_true_2.
  - exists rr. split_and!; [|done..]. by apply onChange_elem.
Qed.

Lemma completed_shrinks rawRows r i :
  i ∈ completed (onChange rawRows r false) → i ∈ completed rawRows.
Proof.
  intros (rr' & Hrr' & <- & Hdone)%elem_of_completed.
  apply onChange_elem_inv in Hrr' as [[Hrr _]|(rr & _ & _ & ->)]; [|done].
  apply elem_of_completed. by exists rr'.
Qed.

(** X21.  Marking a row done never takes another id out of the actionable
    set, marking it to-do never brings another id in, and an id just marked
    done is not actionable. *)
Theorem completing_never_blocks (rawRows : list Row) (r : Row) (i : string) :
  i ≠ id r →
  (i ∈ actionable rawRows → i ∈ actionable (onChange rawRows r true)) ∧
  (i ∈ actionable (onChange rawRows r false) → i ∈ actionable rawRows) ∧
  id r ∉ actionable (onChange rawRows r true).
Proof.
  intros Hi. split_and!.
  - intros (rr & Hrr & <- & Ha)%elem_of_actionable.
    apply elem_of_actionable. exists rr. split_and!; [by apply onChange_elem|done|].
    apply isActionable_iff in Ha as [Hs Hd]. apply isActionable_iff.
    split; [done|]. intros d Hin. by apply completed_grows, Hd.
  - intros (rr' & Hrr' & <- & Ha)%elem_of_actionable.
    apply onChange_elem_inv in Hrr' as [[Hrr _]|(rr & _ & Hid & ->)]; [|done].
    apply elem_of_actionable. exists rr'. split_and!; [done..|].
    apply isActionable_iff in Ha as [Hs Hd]. apply isActionable_iff.
    split; [done|]. intros d Hin. by apply (completed_shrinks rawRows r), Hd.
  - intros (rr' & Hrr' & Hid & Ha)%elem_of_actionable.
    apply onChange_elem_inv in Hrr' as [[_ Hne]|(rr & _ & _ & ->)]; [done|].
    by apply isActionable_iff in Ha as [Hs _].
Qed.

(** X22.  With pairwise distinct ids, a row that lists its own id among its
    dependencies is never actionable. *)
Theorem self_dependency_stuck (rawRows : list Row) (r : Row) :
  NoDup (id <$> rawRows) → r ∈ rawRows → id r ∈ depsOf r →
  id r ∉ actionable rawRows.
Proof.
  intros Hnd Hr Hself Hact.
  apply (actionable_row _ _ Hnd Hr), isActionable_iff in Hact as [Hs Hd].
  apply Hd, elem_of_completed in Hself as (rr & Hrr & Hid & Hdone).
  by rewrite (NoDup_fmap_eq id rawRows rr r Hnd Hrr Hr Hid) in Hdone.
Qed.

(** *** The single-selector revision and the load *)

Lemma or_else_eq_iff (o : option string) s :
  s ≠ "" → Js.or_else o "" = s ↔ o = Some s.
Proof.
  intros Hs. destruct o as [[|c t]|]; simpl; split; try done; congruence.
Qed.

Lemma okAll_single_stage s flag rawRows r :
  s ≠ "" → r ∈ rawRows →
  okAll (mkFilterState "" all [s] (allSections rawRows) [] flag) r = true
  ↔ stage r = Some s.
Proof.
  intros Hs Hr. unfold okAll. rewrite okSearch_empty by done.
  unfold okStatus, okStage, okSection, okTags.
  simpl. rewrite !andb_true_r.
  rewrite (bool_decide_eq_true_2 (_ ∈ allSections _))
    by by apply allSections_elem.
  rewrite andb_true_r, bool_decide_eq_true, list_elem_of_singleton.
  by apply or_else_eq_iff.
Qed.

(** X23.  The revision with the single stage selector shows, for a selected
    stage, the rows the chip revision shows with that one stage ticked, every
    section selected and the other filters at rest; under "All" without the
    actionable-only flag it shows every row, whatever its stage. *)
Theorem rev3_as_chips (s : string) (flag : bool) (rawRows : list Row) :
  (s ≠ "" → s ≠ "All" →
   Rev3.visibleRows s flag rawRows
   = visibleRows (mkFilterState "" all [s] (allSections rawRows) [] flag)
       rawRows) ∧
  Rev3.visibleRows "All" false rawRows = rawRows.
Proof.
  split.
  - intros Hs Hall. rewrite visibleRows_filter. unfold Rev3.visibleRows.
    apply filter_ext_in. intros r Hr.
    rewrite (okAll_single_stage s flag rawRows r Hs Hr). simpl.
    rewrite (bool_decide_eq_false_2 (s = "All")) by done. simpl.
    rewrite Is_true_true, andb_true_iff, bool_decide_eq_true.
    destruct flag; simpl; rewrite ?bool_decide_eq_true;
      intuition discriminate.
  - unfold Rev3.visibleRows. apply filter_all, Forall_forall.
    by intros r _.
Qed.

Lemma normalise_shape r :
  Js.trim (id (normalise r)) = id (normalise r) ∧
  Js.trim (title (normalise r)) = title (normalise r) ∧
  (∃ s, stage (normalise r) = Some s ∧ Js.trim s = s) ∧
  (∃ s, status (normalise r) = Some s).
Proof.
  simpl. split_and!; [apply trim_idemp..| |by eexists].
  eexists. split; [done|]. apply trim_idemp.
Qed.

(** X24.  Loading keeps the number of rows; every loaded row has a trimmed
    id and title, a defined and trimmed stage and a defined status. *)
Theorem loadRows_shape (saved : gmap string string) (data : list Row) :
  length (loadRows saved data) = length data ∧
  ∀ r, r ∈ loadRows saved data →
    Js.trim (id r) = id r ∧ Js.trim (title r) = title r ∧
    (∃ s, stage r = Some s ∧ Js.trim s = s) ∧
    (∃ s, status r = Some s).
Proof.
  unfold loadRows. split; [by rewrite !length_fmap|].
  intros r (n & -> & (d & -> & _)%list_elem_of_fmap)%list_elem_of_fmap.
  destruct (normalise_shape d) as (Hi & Ht & Hs & Hst).
  unfold mergeSaved. destruct (saved !! id (normalise d)) as [s|]; [|done].
  destruct (Js.truthy (Some s)); [|done].
  split_and!; [done..|by eexists].
Qed.

(** *** Loads and the selection *)

Lemma commit_keeps_selection n c :
  selectedSections (filters c) ≠ [] →
  filters (commit n c) = filters c ∧ rawRows (commit n c) = rawRows c.
Proof.
  revert c. induction n as [|n IH]; intros c Hsel; [done|]. simpl.
  destruct (decide (_ = _)); [done|].
  unfold defaultSections. simpl.
  destruct (selectedSections (filters c)) as [|s secs] eqn:Hs; [done|].
  rewrite andb_false_r. destruct (IH (mkState (rawRows c) (rowsRef c) (filters c)
    (Some (effectDeps c)))) as [Hf Hr]; [simpl; by rewrite Hs|]. done.
Qed.

Lemma loadRows_nil_iff saved data : loadRows saved data = [] ↔ data = [].
Proof.
  unfold loadRows. split; [|by intros ->].
  intros H. by apply fmap_nil_inv, fmap_nil_inv in H.
Qed.

(** X25.  After the first load of a non-empty CSV the store holds the loaded
    rows and the filter state is the one a reset installs: every observed
    section is selected. *)
Theorem first_load_is_reset (saved : gmap string string) (data : list Row) :
  data ≠ [] →
  rawRows (run [Loaded saved data]) = loadRows saved data ∧
  filters (run [Loaded saved data]) = resetFilters (loadRows saved data).
Proof.
  intros Hdata.
  assert (Hrows : loadRows saved data ≠ []) by by rewrite loadRows_nil_iff.
  pose proof (allSections_nonempty _ Hrows) as Hall.
  unfold run. simpl foldl. unfold dispatch, handle, setRawRows. simpl.
  unfold defaultSections, setSelectedSections, effectDeps. simpl.
  destruct (loadRows saved data) as [|r rows] eqn:Hl; [done|]. simpl.
  destruct (allSections (r :: rows)) as [|a all'] eqn:Ha; [done|].
  rewrite decide_False by (intros [=]). simpl.
  rewrite decide_True by done. by rewrite <- Ha.
Qed.

(** X26.  While some section is selected, a load or a checkbox click changes
    the rows only: the filter state, and so the selected sections, stay as
    they are even when the new rows bring new sections. *)
Theorem selection_survives (c : State) :
  selectedSections (filters c) ≠ [] →
  (∀ saved data,
     filters (dispatch c (Loaded saved data)) = filters c ∧
     rawRows (dispatch c (Loaded saved data)) = loadRows saved data) ∧
  (∀ r,
     filters (dispatch c (Checkbox r)) = filters c ∧
     rawRows (dispatch c (Checkbox r)) = click (rawRows c) r).
Proof.
  intros Hsel. split.
  - intros saved data. unfold dispatch.
    by destruct (commit_keeps_selection 3 (handle (Loaded saved data) c)).
  - intros r. unfold dispatch.
    by destruct (commit_keeps_selection 3 (handle (Checkbox r) c)).
Qed.

End Generic.

(** *** Sample evaluations *)

Lemma list_items_clean_witness :
  "b c" ∈ Util.list (Some " a | b c || ") ∧ Js.trim "b c" = "b c".
Proof.
  assert (Hin : "b c" ∈ Util.list (Some " a | b c || ")) by by_eval.
  split; [exact Hin|].
  by destruct (list_items_clean (Some " a | b c || ") "b c" Hin) as (_ & ? & _).
Defined.

Lemma okSearch_field_match_witness :
  okSearch (mkFilterState "ETU" all [] [] [] false)
           (sampleRow "A" "" "done") = true ∧
  ¬ Spec.hasChar " " (Js.toLowerCase "a") ∧
  ∃ f, f ∈ Spec.cells (sampleRow "A" "" "done") ∧
       Spec.isSubstring (Js.toLowerCase "a") (Util.ci f).
Proof.
  destruct (okSearch_field_match (mkFilterState "ETU" all [] [] [] false)
              (sampleRow "A" "" "done")) as [Hin _].
  destruct (okSearch_field_match (mkFilterState "a" all [] [] [] false)
              (sampleRow "A" "" "done")) as [_ Hout].
  assert (Hsp : ¬ Spec.hasChar " " (Js.toLowerCase "a"))
    by (unfold Spec.hasChar; by_eval).
  split_and!; [|exact Hsp|].
  - apply (Hin (Some "Setup")); [by_eval|]. by exists "s", "p".
  - apply Hout; [exact Hsp|reflexivity].
Defined.

Lemma toggle_elem_witness :
  NoDup ["a"; "b"] ∧ NoDup (toggle ["a"; "b"] "a").
Proof.
  assert (Hnd : NoDup ["a"; "b"]) by by_eval.
  split; [exact Hnd|].
  by apply (toggle_elem ["a"; "b"] "a" "a").
Defined.

Lemma toggle_twice_witness :
  toggle (toggle ["a"; "b"] "c") "c" = ["a"; "b"] ∧
  toggle (toggle ["a"; "b"] "a") "a" ≡ₚ ["a"; "b"].
Proof.
  destruct (toggle_twice ["a"; "b"] "c") as (Habs & _ & _).
  destruct (toggle_twice ["a"; "b"] "a") as (_ & _ & Hperm).
  split; [apply Habs; by_eval|apply Hperm; by_eval].
Defined.

Lemma tag_chip_selects_witness :
  let rows := [mkRow "A" "a" None None None None None None (Some "x | y");
               mkRow "B" "b" None None None None None None None] in
  ∃ r, r ∈ rows ∧ okTags (mkFilterState "" all [] [] ["y"] false) r = true.
Proof.
  intros rows.
  destruct (tag_chip_selects (mkFilterState "" all [] [] ["y"] false) rows "y")
    as (_ & Hchip & _); [done|].
  apply Hchip. by_eval.
Defined.

Lemma statusMap_lookup_witness :
  statusMap [sampleRow "A" "" "done"; sampleRow "A" "" "todo"] !! "A"
  = Some "todo" ∧ "todo" ≠ "" ∧
  statusMap [sampleRow "__proto__" "" "done"] !! "__proto__" = None.
Proof.
  destruct (statusMap_lookup
              [sampleRow "A" "" "done"; sampleRow "A" "" "todo"] "A")
    as [Hlook Hne].
  destruct (statusMap_lookup [sampleRow "__proto__" "" "done"] "__proto__")
    as [Hproto _].
  split_and!; [by rewrite Hlook| |by rewrite Hproto].
  apply Hne. by rewrite Hlook.
Defined.

Lemma reload_restores_witness :
  let data := [mkRow " A " "a" None (Some "Setup") None None None None None;
               mkRow "B" "b" None (Some "Setup") None None (Some "A")
                 (Some "todo") None] in
  let rows := click (loadRows ∅ data)
                (mkRow "A" "a" None (Some "Setup") None None None
                   (Some "todo") None) in
  NoDup (id <$> rows) ∧ ("__proto__" ∉ id <$> rows) ∧
  loadRows (statusMap rows) data = rows.
Proof.
  intros data rows.
  assert (Hnd : NoDup (id <$> rows)) by by_eval.
  assert (Hp : "__proto__" ∉ (id <$> rows)) by by_eval.
  split_and!; [exact Hnd|exact Hp|].
  destruct (reload_restores initialFilters data rows Hnd Hp) as [Heq _].
  - repeat constructor.
  - by rewrite Heq.
Defined.

Lemma done_actionable_empty_witness :
  let rows := [sampleRow "A" "" "done"; sampleRow "B" "A" "todo"] in
  NoDup (id <$> rows) ∧
  visibleRows (mkFilterState "" done STAGE_ORDER (allSections rows) [] true)
    rows = [].
Proof.
  intros rows.
  assert (Hnd : NoDup (id <$> rows)) by by_eval.
  split; [exact Hnd|].
  by apply (done_actionable_empty _ rows Hnd).
Defined.

Lemma more_chips_more_rows_witness :
  let rows := [sampleIn "Alpha" "A"; sampleIn "Beta" "B"] in
  visibleRows (mkFilterState "" all ["Setup"] ["Alpha"] [] false) rows
  `sublist_of`
  visibleRows (mkFilterState "" all STAGE_ORDER ["Alpha"; "Beta"] [] false)
    rows.
Proof.
  intros rows.
  apply (more_chips_more_rows
           (mkFilterState "" all ["Setup"] ["Alpha"] [] false)
           (mkFilterState "" all STAGE_ORDER ["Alpha"; "Beta"] [] false) rows);
    [done..| |]; simpl; intros x Hx; apply list_elem_of_singleton in Hx as ->;
    by_eval.
Defined.

Lemma nodes_edges_distinct_witness :
  let rows := [sampleRow "A" "" "done"; sampleRow "B" "A" "todo"] in
  NoDup (id <$> rows) ∧
  NoDup (Node.id <$> nodesBuilt (defaultFilters rows) rows) ∧
  NoDup (edgesBuilt (defaultFilters rows) rows).
Proof.
  intros rows.
  assert (Hnd : NoDup (id <$> rows)) by by_eval.
  destruct (nodes_edges_distinct (defaultFilters rows) rows Hnd)
    as (Hnodes & _ & Hedges).
  split_and!; [done..|]. apply Hedges. intros r Hr.
  apply elem_of_visibleRows in Hr as (Hr & _).
  repeat (apply elem_of_cons in Hr as [->|Hr]; [by_eval|]).
  by apply elem_of_nil in Hr.
Defined.

Lemma completing_never_blocks_witness :
  let rows := [sampleRow "A" "" "todo"; sampleRow "B" "" "todo"] in
  "B" ∈ actionable (onChange rows (sampleRow "A" "" "todo") true).
Proof.
  intros rows.
  destruct (completing_never_blocks rows (sampleRow "A" "" "todo") "B")
    as (Hkeep & _ & _); [done|].
  apply Hkeep. by_eval.
Defined.

Lemma self_dependency_stuck_witness :
  let rows := [sampleRow "A" "B | A" "todo"; sampleRow "B" "" "done"] in
  NoDup (id <$> rows) ∧ id (sampleRow "A" "B | A" "todo") ∉ actionable rows.
Proof.
  intros rows.
  assert (Hnd : NoDup (id <$> rows)) by by_eval.
  split; [exact Hnd|].
  apply (self_dependency_stuck rows (sampleRow "A" "B | A" "todo") Hnd);
    by_eval.
Defined.

Lemma rev3_as_chips_witness :
  let rows := [sampleRow "A" "" "done";
               mkRow "C" "c" None (Some "Late") None None None None None] in
  Rev3.visibleRows "Late" false rows
  = visibleRows (mkFilterState "" all ["Late"] (allSections rows) [] false) rows.
Proof.
  intros rows. by apply (rev3_as_chips "Late" false rows).
Defined.

Lemma loadRows_shape_witness :
  let data := [mkRow " A " " a" None (Some " Late ") None None None None None] in
  let r := mkRow "A" "a" None (Some "Late") None None None (Some "todo") None in
  r ∈ loadRows ∅ data ∧ Js.trim (id r) = id r ∧
  length (loadRows ∅ data) = 1.
Proof.
  intros data r.
  assert (Hr : r ∈ loadRows ∅ data) by by_eval.
  destruct (loadRows_shape ∅ data) as [Hlen Hshape].
  destruct (Hshape r Hr) as (Hid & _).
  by split_and!.
Defined.

Lemma first_load_is_reset_witness :
  filters (run [Loaded ∅ [sampleIn "Beta" "B"; sampleIn "Alpha" "A"]])
  = resetFilters (loadRows ∅ [sampleIn "Beta" "B"; sampleIn "Alpha" "A"]).
Proof.
  by apply (first_load_is_reset ∅ [sampleIn "Beta" "B"; sampleIn "Alpha" "A"]).
Defined.

Lemma selection_survives_witness :
  let first := run [Loaded ∅ [sampleIn "Alpha" "A"]] in
  selectedSections
    (filters (dispatch first (Loaded ∅ [sampleIn "Alpha" "A"; sampleIn "Beta" "B"])))
  = ["Alpha"] ∧
  visibleRows
    (filters (dispatch first (Loaded ∅ [sampleIn "Alpha" "A"; sampleIn "Beta" "B"])))
    (rawRows (dispatch first (Loaded ∅ [sampleIn "Alpha" "A"; sampleIn "Beta" "B"])))
  = [sampleIn "Alpha" "A"].
Proof.
  intros first.
  destruct (selection_survives first) as [Hload _]; [by_eval|].
  destruct (Hload ∅ [sampleIn "Alpha" "A"; sampleIn "Beta" "B"]) as [Hf Hr].
  rewrite Hf, Hr. split; by vm_compute.
Defined.

Lemma allSections_spec_witness :
  "General" ∈ allSections [sampleRow "A" "" "done"; sampleIn "Alpha" "B"].
Proof.
  destruct (allSections_spec [sampleRow "A" "" "done"; sampleIn "Alpha" "B"])
    as (_ & _ & Hin).
  apply Hin. exists (sampleRow "A" "" "done"). split; [by_eval|done].
Defined.

Lemma allTags_spec_witness :
  "y" ∈ allTags [mkRow "A" "a" None None None None None None (Some "x | y")].
Proof.
  destruct (allTags_spec
              [mkRow "A" "a" None None None None None None (Some "x | y")])
    as (_ & _ & Hin).
  apply Hin. eexists. split; [by left|by_eval].
Defined.

Lemma sections_never_empty_witness :
  selectedSections
    (filters (run [Loaded ∅ [sampleIn "Alpha" "A"]; SectionChip "Alpha"])) ≠ [].
Proof.
  destruct (sections_never_empty
              [Loaded ∅ [sampleIn "Alpha" "A"]; SectionChip "Alpha"])
    as [_ Hsome].
  apply Hsome. by vm_compute.
Defined.

End FlowchartMore.
